(** * ClickCompetitions scraper: a shallow embedding of
      [COMPS/scrape_clickcompetitions_all.py] and its properties.

    Conventions of the embedding.
    - Python [str] is [string]; [int] is [Z]; [Optional[T]] is [option T].
    - Python [float] is an exact rational ([Q]); the comparison [==] is
      [Qeq_bool].  Rounding, infinities produced by overflow and NaN are
      not part of the model; [float("inf")], which the source writes
      explicitly, has its own constructor in [sort_value].
    - A Python exception is a value [Raise e] of the [result] monad; code
      that cannot raise in Python is a plain function.
    - The libraries the script calls ([re], [urllib.parse], [requests],
      BeautifulSoup, Playwright) are not part of the repository: their
      operations are [Variable]s of the sections below, and small concrete
      models of them are given for evaluating the code on examples. *)

From Stdlib Require Import ZArith QArith Qround Lia Lqa Ascii String.
From stdpp Require Import base option list strings gmap sorting.

Local Open Scope string_scope.
Local Open Scope Z_scope.

(** ** Python exceptions *)

Module Py.

Inductive exn : Type :=
| ZeroDivisionError
| TypeError
| ValueError
| IndexError
| OtherException (msg : string).

Inductive result (A : Type) : Type :=
| Ok (a : A)
| Raise (e : exn).

#[global] Arguments Ok {A} a.
#[global] Arguments Raise {A} e.

#[global] Instance result_ret : MRet result := fun A a => Ok a.

#[global] Instance result_bind : MBind result :=
  fun A B f m => match m with Ok a => f a | Raise e => Raise e end.

Definition is_ok {A} (r : result A) : bool :=
  match r with Ok _ => true | Raise _ => false end.

(** [for x in xs: acc = f(x, acc)], stopping at the first exception. *)
Fixpoint mapM {A B} (f : A -> result B) (xs : list A) : result (list B) :=
  match xs with
  | [] => Ok []
  | x :: xs' => y ← f x; ys ← mapM f xs'; Ok (y :: ys)
  end.

(** *** Numbers *)

(** [x / y] on floats. *)
Definition float_truediv (x y : Q) : result Q :=
  if Qeq_bool y 0 then Raise ZeroDivisionError else Ok (x / y)%Q.

(** [n / d] on ints (true division). *)
Definition int_truediv (n d : Z) : result Q :=
  if d =? 0 then Raise ZeroDivisionError else Ok (inject_Z n / inject_Z d)%Q.

(** [int(x)] on a float: truncation toward zero. *)
Definition int_of_float (x : Q) : Z := Z.quot (Qnum x) (Zpos (Qden x)).

(** Truth value of an [Optional[float]] and of an [Optional[int]]. *)
Definition truthy_float (o : option Q) : bool :=
  match o with Some x => negb (Qeq_bool x 0) | None => false end.

Definition truthy_int (o : option Z) : bool :=
  match o with Some n => negb (n =? 0) | None => false end.

Definition truthy_str (s : string) : bool :=
  match s with "" => false | _ => true end.

(** *** Strings *)

(** [sub in s] *)
Fixpoint contains (sub s : string) : bool :=
  String.prefix sub s ||
  match s with
  | "" => false
  | String _ s' => contains sub s'
  end.

(** [s.split(c)[0]]: the part of [s] before the first [c]. *)
Fixpoint before (c : ascii) (s : string) : string :=
  match s with
  | "" => ""
  | String a s' => if Ascii.eqb a c then "" else String a (before c s')
  end.

(** The part of [s] after the first [c]; empty when [c] does not occur. *)
Fixpoint after (c : ascii) (s : string) : string :=
  match s with
  | "" => ""
  | String a s' => if Ascii.eqb a c then s' else after c s'
  end.

(** [s.rstrip(c)] for a one-character argument. *)
Fixpoint rstrip (c : ascii) (s : string) : string :=
  match s with
  | "" => ""
  | String a s' =>
      match rstrip c s' with
      | "" => if Ascii.eqb a c then "" else String a ""
      | r => String a r
      end
  end.

(** [s.replace(c, "")] for a one-character [c]. *)
Fixpoint remove_char (c : ascii) (s : string) : string :=
  match s with
  | "" => ""
  | String a s' =>
      if Ascii.eqb a c then remove_char c s' else String a (remove_char c s')
  end.

(** [s.replace(nbsp, " ")], where nbsp is the no-break space U+00A0, in
    UTF-8 the byte pair 194, 160. *)
Fixpoint replace_nbsp (s : string) : string :=
  match s with
  | "" => ""
  | String a s' =>
      match s' with
      | String b s'' =>
          if Ascii.eqb a "194" && Ascii.eqb b "160"
          then String " " (replace_nbsp s'')
          else String a (replace_nbsp s')
      | "" => String a ""
      end
  end.

Definition is_space (a : ascii) : bool :=
  let n := N_of_ascii a in ((9 <=? n) && (n <=? 13) || (n =? 32))%N.

Fixpoint lstrip_space (s : string) : string :=
  match s with
  | "" => ""
  | String a s' => if is_space a then lstrip_space s' else s
  end.

Fixpoint rstrip_space (s : string) : string :=
  match s with
  | "" => ""
  | String a s' =>
      match rstrip_space s' with
      | "" => if is_space a then "" else String a ""
      | r => String a r
      end
  end.

(** [s.strip()] *)
Definition strip (s : string) : string := rstrip_space (lstrip_space s).

(** [sep.join(parts)] *)
Definition join (sep : string) (parts : list string) : string :=
  String.concat sep parts.

(** *** Parsing numbers *)

Definition digit_of (a : ascii) : option Z :=
  let n := Z.of_N (N_of_ascii a) in
  if (48 <=? n) && (n <=? 57) then Some (n - 48) else None.

Fixpoint digits_acc (acc : Z) (s : string) : option Z :=
  match s with
  | "" => Some acc
  | String a s' =>
      match digit_of a with
      | Some d => digits_acc (10 * acc + d) s'
      | None => None
      end
  end.

(** [int(s)] on what the patterns of the script capture: a non-empty run
    of ASCII digits.  Every other string is a [ValueError]. *)
Definition int (s : string) : result Z :=
  match s with
  | "" => Raise ValueError
  | _ => match digits_acc 0 s with
         | Some n => Ok n
         | None => Raise ValueError
         end
  end.

(** [float(s)] on what the patterns capture: digits, optionally followed
    by a point and more digits.  The value is the exact decimal. *)
Definition float (s : string) : result Q :=
  let ip := before "." s in
  let fp := after "." s in
  match ip ++ fp with
  | "" => Raise ValueError
  | _ =>
      match digits_acc 0 ip, digits_acc 0 fp with
      | Some i, Some f =>
          let scale := 10 ^ Z.of_nat (String.length fp) in
          Ok (inject_Z (i * scale + f) / inject_Z scale)%Q
      | _, _ => Raise ValueError
      end
  end.

End Py.

Import Py.

(** ** Data model *)

Record Competition : Type := mkCompetition {
  category : string;
  url : string;
  title : option string;
  ticket_price_gbp : option Q;
  draw_datetime : option string;
  sales_end_datetime : option string;
  tickets_available : option Z;
  tickets_sold : option Z;
  cash_alternative_gbp : option Q
}.

(** [Competition(category=category, url=url)] *)
Definition new_Competition (category url : string) : Competition :=
  mkCompetition category url None None None None None None None.

(** Attribute assignment [comp.f = v]. *)
Definition set_title (comp : Competition) (v : option string) : Competition :=
  mkCompetition (category comp) (url comp) v (ticket_price_gbp comp)
    (draw_datetime comp) (sales_end_datetime comp) (tickets_available comp)
    (tickets_sold comp) (cash_alternative_gbp comp).

Definition set_ticket_price_gbp (comp : Competition) (v : option Q) : Competition :=
  mkCompetition (category comp) (url comp) (title comp) v
    (draw_datetime comp) (sales_end_datetime comp) (tickets_available comp)
    (tickets_sold comp) (cash_alternative_gbp comp).

Definition set_draw_datetime (comp : Competition) (v : option string) : Competition :=
  mkCompetition (category comp) (url comp) (title comp) (ticket_price_gbp comp)
    v (sales_end_datetime comp) (tickets_available comp)
    (tickets_sold comp) (cash_alternative_gbp comp).

Definition set_sales_end_datetime (comp : Competition) (v : option string) : Competition :=
  mkCompetition (category comp) (url comp) (title comp) (ticket_price_gbp comp)
    (draw_datetime comp) v (tickets_available comp)
    (tickets_sold comp) (cash_alternative_gbp comp).

Definition set_tickets_available (comp : Competition) (v : option Z) : Competition :=
  mkCompetition (category comp) (url comp) (title comp) (ticket_price_gbp comp)
    (draw_datetime comp) (sales_end_datetime comp) v
    (tickets_sold comp) (cash_alternative_gbp comp).

Definition set_tickets_sold (comp : Competition) (v : option Z) : Competition :=
  mkCompetition (category comp) (url comp) (title comp) (ticket_price_gbp comp)
    (draw_datetime comp) (sales_end_datetime comp) (tickets_available comp)
    v (cash_alternative_gbp comp).

Definition set_cash_alternative_gbp (comp : Competition) (v : option Q) : Competition :=
  mkCompetition (category comp) (url comp) (title comp) (ticket_price_gbp comp)
    (draw_datetime comp) (sales_end_datetime comp) (tickets_available comp)
    (tickets_sold comp) v.

(** ** Parsed documents

    What the script reads from a BeautifulSoup document.  The text nodes
    are kept stripped and without the empty ones, which is what
    [get_text(sep, strip=True)] joins. *)

Record Tag : Type := mkTag {
  tag_strings : list string
}.

Record BeautifulSoup : Type := mkSoup {
  (** the [href] attribute of every element matched by [select("a[href]")],
      in document order *)
  select_a_href : list string;
  (** [select_one("h1")] *)
  select_one_h1 : option Tag;
  (** the text nodes of the whole document *)
  soup_strings : list string
}.

Definition NL : string := String "010" "".

(** [tag.get_text(sep, strip=True)] *)
Definition get_text (sep : string) (strings : list string) : string :=
  join sep strings.

(** ** Link extraction *)

Definition canonical_link (full : string) : string :=
  rstrip "/" (before "?" (before "#" full)) ++ "/".

(** [sorted(links)] for a set of strings. *)
Definition sorted_links (links : gset string) : list string :=
  merge_sort String.le (elements links).

Section LinkExtraction.

(** [urllib.parse.urljoin] and [urlparse(...).netloc]; both can raise
    [ValueError] on a malformed authority. *)
Variable urljoin : string -> string -> result string.
Variable netloc : string -> result string.

Definition normalise_url (base href : string) : result string :=
  urljoin base href.

(** The body of the [for a in soup.select("a[href]")] loop, threading the
    set [links]. *)
Fixpoint collect_links (category_url category_host : string)
    (hrefs : list string) (links : gset string) : result (gset string) :=
  match hrefs with
  | [] => Ok links
  | href :: rest =>
      if negb (contains "/competition/" href) then
        collect_links category_url category_host rest links
      else if contains "/competition-category/" href then
        collect_links category_url category_host rest links
      else
        full ← normalise_url category_url href;
        host ← netloc full;
        if negb (String.eqb host category_host) then
          collect_links category_url category_host rest links
        else
          collect_links category_url category_host rest
            ({[ canonical_link full ]} ∪ links)
  end.

Definition extract_competition_links_from_category
    (category_url : string) (soup : BeautifulSoup) : result (list string) :=
  category_host ← netloc category_url;
  links ← collect_links category_url category_host (select_a_href soup) ∅;
  Ok (sorted_links links).

End LinkExtraction.

(** ** Field extraction *)

(** [soup.get_text(NL, strip=True).replace(nbsp, " ")], with [NL] the
    newline and [nbsp] the no-break space. *)
Definition page_text (soup : BeautifulSoup) : string :=
  replace_nbsp (get_text NL (soup_strings soup)).

Definition PRICE_RE : string := "£\s*([0-9]+(?:\.[0-9]+)?)\s*PER\s*ENTRY".
Definition AVAIL_RE : string := "([0-9][0-9,]*)\s*tickets\s*available".
Definition SOLD_RE : string :=
  "Tickets\s*Sold:\s*([0-9][0-9,]*)\s*of\s*([0-9][0-9,]*)".
Definition CASH_RE : string := "Cash\s*Alternative:\s*£\s*([0-9][0-9,]*\.?[0-9]*)".
Definition DRAW_RE : string := "Live\s*Draw\s*([^\n]+)".
Definition END_RE : string := "Ticket\s*sales\s*end\s*([^\n]+)".

(** [m.group(i)] for [i >= 1], on the list of the groups of a match. *)
Definition group (m : list string) (i : nat) : result string :=
  match m !! (i - 1)%nat with
  | Some g => Ok g
  | None => Raise IndexError
  end.

Section FieldExtraction.

(** [re.search(pattern, text, flags=re.I)]: [None] when nothing matches,
    otherwise the groups 1, 2, ... of the leftmost match. *)
Variable re_search : string -> string -> option (list string).

Definition rule_price (text : string) (comp : Competition) : result Competition :=
  match re_search PRICE_RE text with
  | Some m_price =>
      g ← group m_price 1;
      v ← float g;
      Ok (set_ticket_price_gbp comp (Some v))
  | None => Ok comp
  end.

Definition rule_avail (text : string) (comp : Competition) : result Competition :=
  match re_search AVAIL_RE text with
  | Some m_avail =>
      g ← group m_avail 1;
      v ← int (remove_char "," g);
      Ok (set_tickets_available comp (Some v))
  | None => Ok comp
  end.

Definition rule_sold (text : string) (comp : Competition) : result Competition :=
  match re_search SOLD_RE text with
  | Some m_sold =>
      g1 ← group m_sold 1;
      sold ← int (remove_char "," g1);
      let comp := set_tickets_sold comp (Some sold) in
      match tickets_available comp with
      | None =>
          g2 ← group m_sold 2;
          pool ← int (remove_char "," g2);
          Ok (set_tickets_available comp (Some pool))
      | Some _ => Ok comp
      end
  | None => Ok comp
  end.

Definition rule_cash (text : string) (comp : Competition) : result Competition :=
  match re_search CASH_RE text with
  | Some m_cash =>
      g ← group m_cash 1;
      v ← float (remove_char "," g);
      Ok (set_cash_alternative_gbp comp (Some v))
  | None => Ok comp
  end.

Definition rule_draw (text : string) (comp : Competition) : result Competition :=
  match re_search DRAW_RE text with
  | Some m_draw =>
      g ← group m_draw 1;
      Ok (set_draw_datetime comp (Some (strip g)))
  | None => Ok comp
  end.

Definition rule_end (text : string) (comp : Competition) : result Competition :=
  match re_search END_RE text with
  | Some m_end =>
      g ← group m_end 1;
      Ok (set_sales_end_datetime comp (Some (strip g)))
  | None => Ok comp
  end.

Definition extract_comp_details_static
    (category url : string) (soup : BeautifulSoup) : result Competition :=
  let comp := new_Competition category url in
  let comp :=
    match select_one_h1 soup with
    | Some h1 =>
        if truthy_str (get_text "" (tag_strings h1))
        then set_title comp (Some (get_text " " (tag_strings h1)))
        else comp
    | None => comp
    end in
  let text := page_text soup in
  comp ← rule_price text comp;
  comp ← rule_avail text comp;
  comp ← rule_sold text comp;
  comp ← rule_cash text comp;
  comp ← rule_draw text comp;
  comp ← rule_end text comp;
  Ok comp.

(** *** Playwright fallback *)

(** What the fallback reads from the rendered page. *)
Record Page : Type := mkPage {
  text_content_h1 : result (option string);
  inner_text_body : result string
}.

(** Launching the browser and [page.goto(url, ...)]: the rendered page, or
    the exception raised on the way. *)
Variable goto : string -> result Page.

Definition extract_comp_details_playwright
    (category url : string) : result Competition :=
  let comp := new_Competition category url in
  page ← goto url;
  let comp :=
    match text_content_h1 page with
    | Ok (Some h1) =>
        if truthy_str h1
        then set_title comp (Some (join " " (String.words h1)))
        else comp
    | Ok None => comp
    | Raise _ => comp
    end in
  body ← inner_text_body page;
  let full_text := replace_nbsp body in
  comp ← rule_price full_text comp;
  comp ← rule_avail full_text comp;
  comp ← rule_sold full_text comp;
  comp ← rule_cash full_text comp;
  comp ← rule_draw full_text comp;
  comp ← rule_end full_text comp;
  Ok comp.

End FieldExtraction.

Definition is_Some_b {A} (o : option A) : bool :=
  match o with Some _ => true | None => false end.

Definition is_comp_complete (comp : Competition) : bool :=
  is_Some_b (title comp) &&
  is_Some_b (ticket_price_gbp comp) &&
  (is_Some_b (tickets_available comp) || is_Some_b (tickets_sold comp)).

(** ** Calculations *)

Definition odds_per_ticket (comp : Competition) : result (option Q) :=
  match tickets_available comp with
  | Some n =>
      if truthy_int (Some n) && (0 <? n)
      then v ← float_truediv 1 (inject_Z n); Ok (Some v)
      else Ok None
  | None => Ok None
  end.

Definition win_probability_for_spend
    (comp : Competition) (spend_gbp : Q) : result (option Q) :=
  if negb (truthy_float (ticket_price_gbp comp) &&
           truthy_int (tickets_available comp))
  then Ok None
  else
    match ticket_price_gbp comp, tickets_available comp with
    | Some price, Some pool =>
        if Qle_bool price 0 || (pool <=? 0) then Ok None
        else
          q ← float_truediv spend_gbp price;
          let n := int_of_float q in
          if n <=? 0 then Ok (Some 0%Q)
          else
            let n := Z.min n pool in
            v ← int_truediv n pool;
            Ok (Some v)
    | _, _ => Raise TypeError
    end.

Definition company_revenue_gbp (comp : Competition) : result (option Q) :=
  match ticket_price_gbp comp, tickets_available comp with
  | Some price, Some pool => Ok (Some (price * inject_Z pool)%Q)
  | _, _ => Ok None
  end.

(** [comp.title or comp.url] *)
Definition safe_title (comp : Competition) : string :=
  match title comp with
  | Some t => if truthy_str t then t else url comp
  | None => url comp
  end.

(** ** Output *)

Definition OUTPUT_FIELDS : list string := [
  "category";
  "url";
  "title";
  "ticket_price_gbp";
  "draw_datetime";
  "sales_end_datetime";
  "tickets_available";
  "tickets_sold";
  "cash_alternative_gbp";
  "odds_per_ticket";
  "win_prob_for_10gbp";
  "win_prob_for_20gbp";
  "company_revenue_gbp"
].

(** The values a row holds. *)
Inductive value : Type :=
| VNone
| VStr (s : string)
| VInt (n : Z)
| VFloat (x : Q).

Definition of_str (o : option string) : value :=
  match o with Some s => VStr s | None => VNone end.
Definition of_int (o : option Z) : value :=
  match o with Some n => VInt n | None => VNone end.
Definition of_float (o : option Q) : value :=
  match o with Some x => VFloat x | None => VNone end.

(** A [dict] with string keys, in insertion order. *)
Definition dict : Type := list (string * value).

(** [d[k] = v]: an existing key keeps its place, a new key goes last. *)
Fixpoint dict_set (k : string) (v : value) (d : dict) : dict :=
  match d with
  | [] => [(k, v)]
  | (k', v') :: d' =>
      if String.eqb k' k then (k, v) :: d' else (k', v') :: dict_set k v d'
  end.

Fixpoint dict_get (k : string) (d : dict) : option value :=
  match d with
  | [] => None
  | (k', v') :: d' => if String.eqb k' k then Some v' else dict_get k d'
  end.

Definition dict_keys (d : dict) : list string := map fst d.

(** [dataclasses.asdict(c)] *)
Definition asdict (c : Competition) : dict := [
  ("category", VStr (category c));
  ("url", VStr (url c));
  ("title", of_str (title c));
  ("ticket_price_gbp", of_float (ticket_price_gbp c));
  ("draw_datetime", of_str (draw_datetime c));
  ("sales_end_datetime", of_str (sales_end_datetime c));
  ("tickets_available", of_int (tickets_available c));
  ("tickets_sold", of_int (tickets_sold c));
  ("cash_alternative_gbp", of_float (cash_alternative_gbp c))
].

(** The row built in the loops of [write_csv] and [write_json]. *)
Definition augmented_row (c : Competition) : result dict :=
  let row := asdict c in
  v ← odds_per_ticket c;
  let row := dict_set "odds_per_ticket" (of_float v) row in
  v ← win_probability_for_spend c 10;
  let row := dict_set "win_prob_for_10gbp" (of_float v) row in
  v ← win_probability_for_spend c 20;
  let row := dict_set "win_prob_for_20gbp" (of_float v) row in
  v ← company_revenue_gbp c;
  let row := dict_set "company_revenue_gbp" (of_float v) row in
  Ok row.

(** [csv.DictWriter(f, fieldnames).writerow(row)]: a key outside
    [fieldnames] is a [ValueError]; a missing key is written as the empty
    string.  The result pairs every column with the value written. *)
Definition DictWriter_row (fieldnames : list string) (row : dict) : result dict :=
  if forallb (fun k => existsb (String.eqb k) fieldnames) (dict_keys row)
  then Ok (map (fun k => (k, default (VStr "") (dict_get k row))) fieldnames)
  else Raise ValueError.

(** The table [write_csv] writes: the header and one row per record. *)
Definition write_csv (comps : list Competition) : result (list string * list dict) :=
  rows ← mapM (fun c => row ← augmented_row c; DictWriter_row OUTPUT_FIELDS row) comps;
  Ok (OUTPUT_FIELDS, rows).

(** The payload [write_json] serialises. *)
Definition write_json (comps : list Competition) : result (list dict) :=
  mapM augmented_row comps.

(** *** The HTML report *)

(** The second component of the sort key: a float or [float("inf")]. *)
Inductive sort_value : Type :=
| Fin (x : Q)
| Inf.

Definition sort_value_ltb (a b : sort_value) : bool :=
  match a, b with
  | Fin x, Fin y => negb (Qle_bool y x)
  | Fin _, Inf => true
  | Inf, _ => false
  end.


(** [p or 0.0] *)
Definition or_zero (p : option Q) : Q :=
  if truthy_float p then default 0%Q p else 0%Q.

(** The tuple [(-p10, rev_val)] of [sort_key], from the two metrics. *)
Definition rank_key (p10 rev : option Q) : Q * sort_value :=
  let p10 := or_zero p10 in
  let rev_val := match rev with Some r => Fin r | None => Inf end in
  ((- p10)%Q, rev_val).

Definition sort_key (c : Competition) : result (Q * sort_value) :=
  p ← win_probability_for_spend c 10;
  rev ← company_revenue_gbp c;
  Ok (rank_key p rev).

(** [<] on the key tuples: the first components decide unless they are
    equal. *)
Definition key_ltb (k1 k2 : Q * sort_value) : bool :=
  if Qeq_bool (fst k1) (fst k2)
  then sort_value_ltb (snd k1) (snd k2)
  else negb (Qle_bool (fst k2) (fst k1)).

Section Sorted.

Context {K A : Type}.
Variable ltb : K -> K -> bool.

(** Insertion of an element that came before all of [l] in the input: it
    goes after the elements that are strictly smaller and before all the
    others, which keeps equal keys in input order. *)
Fixpoint insert_keyed (x : K * A) (l : list (K * A)) : list (K * A) :=
  match l with
  | [] => [x]
  | y :: l' => if ltb (fst y) (fst x) then y :: insert_keyed x l' else x :: l
  end.

Definition sort_keyed (l : list (K * A)) : list (K * A) :=
  foldr insert_keyed [] l.

(** [a] does not come after [b] in the order of [<]. *)
Definition not_after (a b : K) : Prop := ltb b a = false.

(** [sorted(xs, key=key)]: the keys are computed first, one call per
    element, then the elements are sorted stably by [<] on the keys. *)
Definition sorted (key : A -> result K) (xs : list A) : result (list A) :=
  keyed ← mapM (fun x => k ← key x; Ok (k, x)) xs;
  Ok (map snd (sort_keyed keyed)).

End Sorted.

(** The content of a table cell. *)
Inductive cell : Type :=
| Text (s : string)
| Link (href text : string)
| Money (x : option Q)       (* [fmt_money(x)], empty when absent *)
| Pct (p : option Q)         (* [fmt_pct(p)], empty when absent *)
| Count (n : option Z).      (* the integer, empty when absent *)

(** The nine cells of [row_html], each with the names (as in
    [OUTPUT_FIELDS]) of what it interpolates. *)
Definition row_html (c : Competition) : result (list (list string * cell)) :=
  p10 ← win_probability_for_spend c 10;
  p20 ← win_probability_for_spend c 20;
  rev ← company_revenue_gbp c;
  let price := ticket_price_gbp c in
  let avail := tickets_available c in
  let sold := tickets_sold c in
  Ok [
    (["category"], Text (category c));
    (["url"; "title"], Link (url c) (safe_title c));
    (["ticket_price_gbp"], Money price);
    (["tickets_available"], Count avail);
    (["tickets_sold"], Count sold);
    (["win_prob_for_10gbp"], Pct p10);
    (["win_prob_for_20gbp"], Pct p20);
    (["company_revenue_gbp"], Money rev);
    (["sales_end_datetime"],
      Text (match sales_end_datetime c with
            | Some s => if truthy_str s then s else ""
            | None => ""
            end))
  ].

(** The rows of the report, in the order they are written. *)
Definition write_html (comps : list Competition)
    : result (list (list (list string * cell))) :=
  sorted_comps ← sorted key_ltb sort_key comps;
  mapM row_html sorted_comps.

(** ** Main orchestration *)

Section Orchestration.

Variable urljoin : string -> string -> result string.
Variable netloc : string -> result string.
Variable re_search : string -> string -> option (list string).
Variable goto : string -> result Page.

(** [get_soup(url, session)]: the parsed page, or the exception of the
    request. *)
Variable get_soup : string -> result BeautifulSoup.

(** The [try] block of the loop over the links of a category. *)
Definition try_url (use_playwright : bool) (cat_name url : string)
    : result Competition :=
  soup ← get_soup url;
  comp ← extract_comp_details_static re_search cat_name url soup;
  if use_playwright && negb (is_comp_complete comp)
  then extract_comp_details_playwright re_search goto cat_name url
  else Ok comp.

(** One iteration of that loop: the record appended to [comps]. *)
Definition scrape_url (use_playwright : bool) (cat_name url : string)
    : Competition :=
  match try_url use_playwright cat_name url with
  | Ok comp => comp
  | Raise _ => new_Competition cat_name url
  end.

(** The records of one category; [None] when no link is found. *)
Definition scrape_category (use_playwright : bool) (max_per_category : Z)
    (cat_name cat_url : string) : result (option (list Competition)) :=
  cat_soup ← get_soup cat_url;
  comp_links ← extract_competition_links_from_category urljoin netloc cat_url cat_soup;
  let comp_links :=
    if negb (max_per_category =? 0) && (0 <? max_per_category)
    then take (Z.to_nat max_per_category) comp_links
    else comp_links in
  match comp_links with
  | [] => Ok None
  | _ => Ok (Some (map (scrape_url use_playwright cat_name) comp_links))
  end.

End Orchestration.

(** ** A model of [urllib.parse]

    [urlsplit], [urlunsplit] and [urljoin] as CPython 3.11 defines them,
    for URLs without control characters and without [;] parameters.  Of
    the checks on the authority only the one on unbalanced brackets is
    kept.  The theorems on link extraction hold for every [urljoin] and
    [netloc]; this model serves to run the extractor on examples. *)

Module Urllib.

Record SplitResult : Type := mkSplit {
  scheme : string;
  netloc : string;
  path : string;
  query : string;
  fragment : string
}.

Definition is_alpha (a : ascii) : bool :=
  let n := N_of_ascii a in
  ((65 <=? n) && (n <=? 90) || (97 <=? n) && (n <=? 122))%N.

Definition is_digit (a : ascii) : bool :=
  let n := N_of_ascii a in ((48 <=? n) && (n <=? 57))%N.

Definition is_scheme_char (a : ascii) : bool :=
  is_alpha a || is_digit a || Ascii.eqb a "+" || Ascii.eqb a "-" || Ascii.eqb a ".".

Definition lower_char (a : ascii) : ascii :=
  let n := N_of_ascii a in
  if ((65 <=? n) && (n <=? 90))%N then ascii_of_N (n + 32) else a.

Fixpoint lower (s : string) : string :=
  match s with
  | "" => ""
  | String a s' => String (lower_char a) (lower s')
  end.

(** [url[:i]] and [url[i+1:]] for the first [:] at [i], when every
    character before it is a scheme character. *)
Fixpoint scheme_prefix (s : string) : option (string * string) :=
  match s with
  | "" => None
  | String a s' =>
      if Ascii.eqb a ":" then Some ("", s')
      else if is_scheme_char a then
        match scheme_prefix s' with
        | Some (p, r) => Some (String a p, r)
        | None => None
        end
      else None
  end.

(** [_splitnetloc]: up to the first of [/], [?], [#]. *)
Fixpoint splitnetloc (s : string) : string * string :=
  match s with
  | "" => ("", "")
  | String a s' =>
      if Ascii.eqb a "/" || Ascii.eqb a "?" || Ascii.eqb a "#" then ("", s)
      else let (n, r) := splitnetloc s' in (String a n, r)
  end.

Definition urlsplit (url default_scheme : string) : result SplitResult :=
  let (scheme, url) :=
    match url with
    | String a _ =>
        if is_alpha a then
          match scheme_prefix url with
          | Some (p, r) => (lower p, r)
          | None => (default_scheme, url)
          end
        else (default_scheme, url)
    | "" => (default_scheme, url)
    end in
  let (netloc, url) :=
    match url with
    | String a (String b r) =>
        if Ascii.eqb a "/" && Ascii.eqb b "/" then splitnetloc r else ("", url)
    | _ => ("", url)
    end in
  if xorb (contains "[" netloc) (contains "]" netloc) then Raise ValueError
  else
    let fragment := after "#" url in
    let url := before "#" url in
    let query := after "?" url in
    let url := before "?" url in
    Ok (mkSplit scheme netloc url query fragment).

Definition uses_relative : list string := [""; "ftp"; "http"; "file"; "https"].
Definition uses_netloc : list string := [""; "ftp"; "http"; "file"; "https"].

Definition mem (s : string) (l : list string) : bool := existsb (String.eqb s) l.

Definition urlunsplit (c : SplitResult) : string :=
  let url := path c in
  let url :=
    if truthy_str (netloc c) ||
       (truthy_str (scheme c) && mem (scheme c) uses_netloc &&
        negb (String.prefix "//" url))
    then
      let url := if truthy_str url && negb (String.prefix "/" url)
                 then "/" ++ url else url in
      "//" ++ netloc c ++ url
    else url in
  let url := if truthy_str (scheme c) then scheme c ++ ":" ++ url else url in
  let url := if truthy_str (query c) then url ++ "?" ++ query c else url in
  if truthy_str (fragment c) then url ++ "#" ++ fragment c else url.

(** [s.split(c)] *)
Fixpoint split_char (c : ascii) (s : string) : list string :=
  match s with
  | "" => [""]
  | String a s' =>
      if Ascii.eqb a c then "" :: split_char c s'
      else match split_char c s' with
           | h :: t => String a h :: t
           | [] => [String a ""]
           end
  end.

(** [segments[1:-1] = filter(None, segments[1:-1])] *)
Definition filter_middle (segments : list string) : list string :=
  match segments with
  | first :: rest =>
      match List.rev rest with
      | last :: mid_rev =>
          (first :: List.filter truthy_str (List.rev mid_rev) ++ [last])%list
      | [] => segments
      end
  | [] => []
  end.

(** The loop over [segments]; [resolved] is kept in reverse. *)
Fixpoint resolve (segments resolved : list string) : list string :=
  match segments with
  | [] => List.rev resolved
  | seg :: rest =>
      if String.eqb seg ".." then resolve rest (tail resolved)
      else if String.eqb seg "." then resolve rest resolved
      else resolve rest (seg :: resolved)
  end.

Definition urljoin (base url : string) : result string :=
  if negb (truthy_str base) then Ok url
  else if negb (truthy_str url) then Ok base
  else
    b ← urlsplit base "";
    u ← urlsplit url (scheme b);
    if negb (String.eqb (scheme u) (scheme b)) || negb (mem (scheme u) uses_relative)
    then Ok url
    else if mem (scheme u) uses_netloc && truthy_str (netloc u)
    then Ok (urlunsplit u)
    else
      let netloc := if mem (scheme u) uses_netloc then netloc b else netloc u in
      if negb (truthy_str (path u)) then
        let query := if truthy_str (query u) then query u else query b in
        Ok (urlunsplit (mkSplit (scheme u) netloc (path b) query (fragment u)))
      else
        let base_parts := split_char "/" (path b) in
        let base_parts :=
          match List.rev base_parts with
          | last :: init_rev =>
              if truthy_str last then List.rev init_rev else base_parts
          | [] => base_parts
          end in
        let segments :=
          if String.prefix "/" (path u) then split_char "/" (path u)
          else filter_middle (base_parts ++ split_char "/" (path u))%list in
        let resolved_path := resolve segments [] in
        let resolved_path :=
          match List.rev segments with
          | last :: _ =>
              if String.eqb last "." || String.eqb last ".."
              then (resolved_path ++ [""])%list else resolved_path
          | [] => resolved_path
          end in
        let joined := join "/" resolved_path in
        let new_path := if truthy_str joined then joined else "/" in
        Ok (urlunsplit (mkSplit (scheme u) netloc new_path (query u) (fragment u))).

(** [urlparse(url).netloc] *)
Definition urlparse_netloc (url : string) : result string :=
  r ← urlsplit url "";
  Ok (netloc r).

End Urllib.

(** ** A model of [re.search]

    A backtracking matcher for the constructs the six patterns use, with
    [flags=re.I] on ASCII letters and [\s] on ASCII white space.  The
    theorems on field extraction hold for every [re_search]; this model
    serves to run the extractors on page texts. *)

Module Re.

Inductive regex : Type :=
| Chr (p : ascii -> bool)      (* one character in a class *)
| Cat (r1 r2 : regex)
| Star (r : regex)             (* greedy repetition *)
| Opt (r : regex)
| Group (r : regex).           (* capturing group *)

Definition Plus (r : regex) : regex := Cat r (Star r).

(** The prefix of [s] that was consumed to leave [rest]. *)
Definition consumed (s rest : string) : string :=
  String.substring 0 (String.length s - String.length rest) s.

(** [go r s caps k]: match [r] at the start of [s], then continue with [k]
    on the rest of the text and the groups closed so far. *)
Fixpoint go (r : regex) (s : string) (caps : list string)
    (k : string -> list string -> option (list string)) : option (list string) :=
  match r with
  | Chr p =>
      match s with
      | String a s' => if p a then k s' caps else None
      | "" => None
      end
  | Cat r1 r2 => go r1 s caps (fun s' caps' => go r2 s' caps' k)
  | Opt r' =>
      match go r' s caps k with
      | Some m => Some m
      | None => k s caps
      end
  | Star r' =>
      (fix star (n : nat) (s : string) (caps : list string) : option (list string) :=
         match n with
         | O => k s caps
         | S n' =>
             match go r' s caps
                     (fun s' caps' =>
                        if (String.length s' <? String.length s)%nat
                        then star n' s' caps' else None) with
             | Some m => Some m
             | None => k s caps
             end
         end) (String.length s) s caps
  | Group r' => go r' s caps (fun s' caps' => k s' (caps' ++ [consumed s s'])%list)
  end.

(** The groups of the leftmost match. *)
Fixpoint search (r : regex) (s : string) : option (list string) :=
  match go r s [] (fun _ caps => Some caps) with
  | Some m => Some m
  | None =>
      match s with
      | "" => None
      | String _ s' => search r s'
      end
  end.

Definition ch (c : ascii) : regex :=
  Chr (fun a => Ascii.eqb (Urllib.lower_char a) (Urllib.lower_char c)).

Fixpoint lit (s : string) : regex -> regex :=
  match s with
  | "" => fun r => r
  | String a s' => fun r => Cat (ch a) (lit s' r)
  end.

Definition ws : regex := Star (Chr is_space).
Definition digit : regex := Chr Urllib.is_digit.
Definition digit_or_comma : regex :=
  Chr (fun a => Urllib.is_digit a || Ascii.eqb a ",").
Definition not_newline : regex := Chr (fun a => negb (Ascii.eqb a "010")).

(** The capturing group of a digit followed by digits and commas. *)
Definition int_group : regex := Group (Cat digit (Star digit_or_comma)).

Definition price_re : regex :=
  lit "£" (Cat ws
    (Cat (Group (Cat (Plus digit) (Opt (Cat (ch ".") (Plus digit)))))
      (Cat ws (lit "PER" (Cat ws (lit "ENTR" (ch "Y"))))))).

Definition avail_re : regex :=
  Cat int_group (Cat ws (lit "tickets" (Cat ws (lit "availabl" (ch "e"))))).

Definition sold_re : regex :=
  lit "Tickets" (Cat ws (lit "Sold:" (Cat ws
    (Cat int_group (Cat ws (lit "of" (Cat ws int_group))))))).

Definition cash_re : regex :=
  lit "Cash" (Cat ws (lit "Alternative:" (Cat ws (lit "£" (Cat ws
    (Group (Cat digit (Cat (Star digit_or_comma)
       (Cat (Opt (ch ".")) (Star digit)))))))))).

Definition draw_re : regex :=
  lit "Live" (Cat ws (lit "Draw" (Cat ws (Group (Plus not_newline))))).

Definition end_re : regex :=
  lit "Ticket" (Cat ws (lit "sales" (Cat ws (lit "end" (Cat ws
    (Group (Plus not_newline))))))).

(** [re.compile] on the patterns of the script. *)
Definition compile (pattern : string) : option regex :=
  if String.eqb pattern PRICE_RE then Some price_re
  else if String.eqb pattern AVAIL_RE then Some avail_re
  else if String.eqb pattern SOLD_RE then Some sold_re
  else if String.eqb pattern CASH_RE then Some cash_re
  else if String.eqb pattern DRAW_RE then Some draw_re
  else if String.eqb pattern END_RE then Some end_re
  else None.

Definition re_search (pattern text : string) : option (list string) :=
  match compile pattern with
  | Some r => search r text
  | None => None
  end.

End Re.


(** ** Command line *)

Module Cli.

Definition DQUOTE : ascii := "034".
Definition SQUOTE : ascii := "039".

(** The white space that [str.strip()] removes, on the UTF-8 bytes of the
    text.  In ASCII these are the characters 9 to 13 and 28 to 32. *)
Definition is_whitespace (a : ascii) : bool :=
  let n := N_of_ascii a in
  ((9 <=? n) && (n <=? 13) || (28 <=? n) && (n <=? 32))%N.

(** U+0085 and U+00A0, two bytes each. *)
Definition is_whitespace2 (a b : ascii) : bool :=
  let a := N_of_ascii a in
  let b := N_of_ascii b in
  ((a =? 194) && ((b =? 133) || (b =? 160)))%N.

(** U+1680, U+2000 to U+200A, U+2028, U+2029, U+202F, U+205F and U+3000,
    three bytes each. *)
Definition is_whitespace3 (a b c : ascii) : bool :=
  let a := N_of_ascii a in
  let b := N_of_ascii b in
  let c := N_of_ascii c in
  ((a =? 225) && (b =? 154) && (c =? 128)
   || (a =? 226) && (b =? 128) &&
      ((128 <=? c) && (c <=? 138) || (c =? 168) || (c =? 169) || (c =? 175))
   || (a =? 226) && (b =? 129) && (c =? 159)
   || (a =? 227) && (b =? 128) && (c =? 128))%N.

(** [s.lstrip()] *)
Fixpoint lstrip_whitespace (s : string) : string :=
  match s with
  | "" => ""
  | String a s1 =>
      if is_whitespace a then lstrip_whitespace s1
      else
        match s1 with
        | String b s2 =>
            if is_whitespace2 a b then lstrip_whitespace s2
            else
              match s2 with
              | String c s3 =>
                  if is_whitespace3 a b c then lstrip_whitespace s3 else s
              | "" => s
              end
        | "" => s
        end
  end.

(** [s] is white space only: [s.strip()] is empty. *)
Fixpoint all_whitespace (s : string) : bool :=
  match s with
  | "" => true
  | String a s1 =>
      if is_whitespace a then all_whitespace s1
      else
        match s1 with
        | String b s2 =>
            if is_whitespace2 a b then all_whitespace s2
            else
              match s2 with
              | String c s3 => is_whitespace3 a b c && all_whitespace s3
              | "" => false
              end
        | "" => false
        end
  end.

(** [s.rstrip()]: what is left of [s] once its white-space end is cut.  On
    UTF-8 text a byte inside a character never starts white space. *)
Fixpoint rstrip_whitespace (s : string) : string :=
  match s with
  | "" => ""
  | String a s' =>
      if all_whitespace s then "" else String a (rstrip_whitespace s')
  end.

(** [s.strip()] *)
Definition strip_whitespace (s : string) : string :=
  rstrip_whitespace (lstrip_whitespace s).

(** [s.lstrip(c)] for a one-character argument. *)
Fixpoint lstrip (c : ascii) (s : string) : string :=
  match s with
  | "" => ""
  | String a s' => if Ascii.eqb a c then lstrip c s' else s
  end.

(** [s.strip(c)] for a one-character argument. *)
Definition strip_char (c : ascii) (s : string) : string :=
  rstrip c (lstrip c s).

(** The two messages of [argparse.ArgumentTypeError]. *)
Definition MISSING_EQUALS : exn :=
  OtherException
    ("Category must be like Name=" ++ String DQUOTE "https://..." ++ String DQUOTE "").

Definition NOT_HTTP : exn :=
  OtherException "Category URL must start with http(s)".

Definition parse_category_arg (s : string) : result (string * string) :=
  if negb (contains "=" s) then Raise MISSING_EQUALS
  else
    (* name, url = s.split("=", 1) *)
    let name := before "=" s in
    let url := after "=" s in
    let name := strip_char SQUOTE (strip_char DQUOTE (strip_whitespace name)) in
    let url := strip_char SQUOTE (strip_char DQUOTE (strip_whitespace url)) in
    if negb (String.prefix "http" (Urllib.lower url)) then Raise NOT_HTTP
    else Ok (name, url).

(** The class [a-zA-Z0-9_-]. *)
Definition is_safe_char (a : ascii) : bool :=
  Urllib.is_alpha a || Urllib.is_digit a || Ascii.eqb a "_" || Ascii.eqb a "-".

(** [re.sub(r"[^a-zA-Z0-9_-]+", "_", s)]: every maximal run of characters
    outside the class becomes one underscore.  [in_run] tells that the
    character before was outside the class. *)
Fixpoint sub_unsafe (in_run : bool) (s : string) : string :=
  match s with
  | "" => ""
  | String a s' =>
      if is_safe_char a then String a (sub_unsafe false s')
      else if in_run then sub_unsafe true s'
      else String "_" (sub_unsafe true s')
  end.

(** The [safe] stem of the per-category file. *)
Definition safe_name (cat_name : string) : string :=
  sub_unsafe false (strip_whitespace cat_name).

(** The parsed arguments that the run reads. *)
Record Args : Type := mkArgs {
  arg_category : list (string * string);
  arg_out : string;
  arg_out_json : string;
  arg_html : string;
  arg_per_category_out_dir : string;
  arg_max_per_category : Z;
  arg_use_playwright : bool
}.

(** Where a file is written: a path given on the command line, or
    [out_dir / name]. *)
Inductive path : Type :=
| File (p : string)
| InDir (out_dir name : string).

(** What is written to it, as the renderers build it. *)
Inductive content : Type :=
| Csv (table : list string * list dict)
| Json (payload : list dict)
| Html (rows : list (list (list string * cell))).

Section Main.

Variable urljoin : string -> string -> result string.
Variable netloc : string -> result string.
Variable re_search : string -> string -> option (list string).
Variable goto : string -> result Page.
Variable get_soup : string -> result BeautifulSoup.

(** The loop over [args.category], threading [all_comps] and the files
    written so far.  An exception leaves the loop with the files already
    written.  The delays of [polite_sleep] are taken non-negative, for which
    it returns. *)
Fixpoint category_loop (args : Args) (cats : list (string * string))
    (all_comps : list Competition) (files : list (path * content))
    : list (path * content) * result (list Competition) :=
  match cats with
  | [] => (files, Ok all_comps)
  | (cat_name, cat_url) :: rest =>
      match scrape_category urljoin netloc re_search goto get_soup
              (arg_use_playwright args) (arg_max_per_category args)
              cat_name cat_url with
      | Raise e => (files, Raise e)
      | Ok None => category_loop args rest all_comps files
      | Ok (Some comps) =>
          if truthy_str (arg_per_category_out_dir args) then
            match write_csv comps with
            | Raise e => (files, Raise e)
            | Ok table =>
                category_loop args rest (all_comps ++ comps)%list
                  (files ++ [(InDir (arg_per_category_out_dir args)
                                (safe_name cat_name ++ ".csv")%string,
                              Csv table)])%list
            end
          else category_loop args rest (all_comps ++ comps)%list files
      end
  end.

(** [main] after [parse_args]: the files written, in order, and whether
    the run ended or raised.  Creating a directory and writing a file are
    taken to succeed: the errors of the file system are not in the model. *)
Definition main (args : Args) : list (path * content) * result unit :=
  match category_loop args (arg_category args) [] [] with
  | (files, Raise e) => (files, Raise e)
  | (files, Ok all_comps) =>
      match write_csv all_comps with
      | Raise e => (files, Raise e)
      | Ok table =>
          let files := (files ++ [(File (arg_out args), Csv table)])%list in
          match write_json all_comps with
          | Raise e => (files, Raise e)
          | Ok payload =>
              let files := (files ++ [(File (arg_out_json args), Json payload)])%list in
              match write_html all_comps with
              | Raise e => (files, Raise e)
              | Ok rows =>
                  ((files ++ [(File (arg_html args), Html rows)])%list, Ok ())
              end
          end
      end
  end.

End Main.

End Cli.
(** ** The ranking of the report, in the words of the specification *)

Definition sort_value_le (a b : sort_value) : Prop :=
  match a, b with
  | Fin x, Fin y => (x <= y)%Q
  | _, Inf => True
  | Inf, Fin _ => False
  end.

(** The win probability at a spend of 10, an absent one counted as 0. *)
Definition p10_or_zero (c : Competition) : Q :=
  match win_probability_for_spend c 10 with
  | Ok (Some p) => p
  | _ => 0%Q
  end.

(** The revenue, an absent one counted as plus infinity. *)
Definition revenue_or_inf (c : Competition) : sort_value :=
  match company_revenue_gbp c with
  | Ok (Some r) => Fin r
  | _ => Inf
  end.

(** [c1] may stand before [c2]: its probability is higher, or the
    probabilities are equal and its revenue is not higher. *)
Definition ranks_before (c1 c2 : Competition) : Prop :=
  (p10_or_zero c2 < p10_or_zero c1)%Q \/
  (p10_or_zero c1 == p10_or_zero c2 /\
   sort_value_le (revenue_or_inf c1) (revenue_or_inf c2))%Q.

(** ** The fields of the report rows *)



(** ** Characters of a URL *)

(** [c] occurs in [s]. *)
Fixpoint has_char (c : ascii) (s : string) : bool :=
  match s with
  | "" => false
  | String a s' => Ascii.eqb a c || has_char c s'
  end.

(** The last character of [s] is [c]. *)
Fixpoint ends_with (c : ascii) (s : string) : bool :=
  match s with
  | "" => false
  | String a "" => Ascii.eqb a c
  | String _ s' => ends_with c s'
  end.

(** ** The links the extractor keeps *)

(** The loop keeps [href], which resolves to [full]: it contains the
    detail marker and not the category marker, and [full] is on [host]. *)
Definition kept_link (urljoin : string -> string -> result string)
    (netloc : string -> result string)
    (category_url host href full : string) : Prop :=
  contains "/competition/" href = true /\
  contains "/competition-category/" href = false /\
  urljoin category_url href = Ok full /\
  netloc full = Ok host.

(** ** The pool a page text gives *)

(** What a text says of the pool once the six rules ran on it from a
    record without ticket counts: the capture of rule 3 when it matches,
    else the second capture of rule 4 when that matches, else nothing. *)
Definition pool_of_text (re_search : string -> string -> option (list string))
    (text : string) (comp : Competition) : Prop :=
  match re_search AVAIL_RE text with
  | Some m_avail =>
      exists g pool,
        group m_avail 1 = Ok g /\ int (remove_char "," g) = Ok pool /\
        tickets_available comp = Some pool
  | None =>
      match re_search SOLD_RE text with
      | Some m_sold =>
          exists g pool,
            group m_sold 2 = Ok g /\ int (remove_char "," g) = Ok pool /\
            tickets_available comp = Some pool
      | None => tickets_available comp = None
      end
  end.

(** ** The authority of a URL, in the model of [urllib.parse] *)

(** The authority of the part of a URL that follows the scheme. *)
Definition authority (rest : string) : string :=
  match rest with
  | String a (String b r) =>
      if Ascii.eqb a "/" && Ascii.eqb b "/" then fst (Urllib.splitnetloc r) else ""
  | _ => ""
  end.

(** The part of a URL after its scheme, as [urlsplit] finds it. *)
Definition after_scheme (u : string) : string :=
  match u with
  | String a _ =>
      if Urllib.is_alpha a then
        match Urllib.scheme_prefix u with
        | Some (_, r) => r
        | None => u
        end
      else u
  | "" => u
  end.

(** ** The rules as one chain *)

(** The six rules in the order both extractors run them. *)
Definition apply_rules (re_search : string -> string -> option (list string))
    (text : string) (comp : Competition) : result Competition :=
  comp ← rule_price re_search text comp;
  comp ← rule_avail re_search text comp;
  comp ← rule_sold re_search text comp;
  comp ← rule_cash re_search text comp;
  comp ← rule_draw re_search text comp;
  comp ← rule_end re_search text comp;
  Ok comp.

(** The field [field] holds what [parse] makes of group [i] of the
    leftmost match of [pattern] in [text], and nothing when there is no
    match. *)
Definition captured {A} (re_search : string -> string -> option (list string))
    (parse : string -> result A) (pattern : string) (i : nat) (text : string)
    (field : option A) : Prop :=
  match re_search pattern text with
  | Some m => exists g v, group m i = Ok g /\ parse g = Ok v /\ field = Some v
  | None => field = None
  end.

(** The title the static extractor takes from the first heading. *)
Definition static_title (soup : BeautifulSoup) : option string :=
  match select_one_h1 soup with
  | Some h1 =>
      if truthy_str (get_text "" (tag_strings h1))
      then Some (get_text " " (tag_strings h1))
      else None
  | None => None
  end.

(** The title the fallback extractor takes from the rendered heading. *)
Definition rendered_title (page : Page) : option string :=
  match text_content_h1 page with
  | Ok (Some h1) =>
      if truthy_str h1 then Some (join " " (String.words h1)) else None
  | _ => None
  end.


(** ** The run as a whole *)

Section RunSpec.

Variable urljoin : string -> string -> result string.
Variable netloc : string -> result string.
Variable re_search : string -> string -> option (list string).
Variable goto : string -> result Page.
Variable get_soup : string -> result BeautifulSoup.

(** The records a category contributes to the run: none when it has no
    link. *)
Definition category_records (args : Cli.Args) (cat : string * string)
    : list Competition :=
  match scrape_category urljoin netloc re_search goto get_soup
          (Cli.arg_use_playwright args) (Cli.arg_max_per_category args)
          (fst cat) (snd cat) with
  | Ok (Some comps) => comps
  | _ => []
  end.

(** The rows both exports hold for a list of records. *)
Definition export_rows (comps : list Competition) : list dict :=
  match write_json comps with
  | Ok rows => rows
  | Raise _ => []
  end.

(** The file of a category in the per-category directory. *)
Definition category_file (args : Cli.Args) (cat : string * string)
    : option (Cli.path * Cli.content) :=
  match category_records args cat with
  | [] => None
  | comps =>
      Some (Cli.InDir (Cli.arg_per_category_out_dir args)
              (Cli.safe_name (fst cat) ++ ".csv"),
            Cli.Csv (OUTPUT_FIELDS, export_rows comps))
  end.

End RunSpec.

(** A file written under the per-category directory. *)
Definition in_out_dir (f : Cli.path * Cli.content) : bool :=
  match fst f with
  | Cli.InDir _ _ => true
  | Cli.File _ => false
  end.

(** ** Command line *)

(** Every character of [s] satisfies [p]. *)
Fixpoint all_chars (p : ascii -> bool) (s : string) : bool :=
  match s with
  | "" => true
  | String a s' => p a && all_chars p s'
  end.

(** What [parse_category_arg] makes of each side of the [=]. *)
Definition unquoted (s : string) : string :=
  Cli.strip_char Cli.SQUOTE (Cli.strip_char Cli.DQUOTE (Cli.strip_whitespace s)).

(** ** Ties of the ranking *)


(** An ASCII character that is not white space: it is no byte of a white
    space character. *)
Definition is_plain (a : ascii) : bool :=
  (N_of_ascii a <? 128)%N && negb (Cli.is_whitespace a).
(** ** Example inputs *)

Module Examples.




(** Three records for the report: 5% at spend 10 with revenue 200, then
    two records at 20% with revenues 50 and 40. *)
Definition long_shot : Competition :=
  mkCompetition "Cars" "https://www.clickcompetitions.co.uk/competition/x/"
    (Some "X") (Some 10%Q) None None (Some 20) None None.

Definition short_odds_dear : Competition :=
  mkCompetition "Cars" "https://www.clickcompetitions.co.uk/competition/y/"
    (Some "Y") (Some 10%Q) None None (Some 5) None None.

Definition short_odds_cheap : Competition :=
  mkCompetition "Tech" "https://www.clickcompetitions.co.uk/competition/z/"
    (Some "Z") (Some 4%Q) None None (Some 10) None None.


(** Two records that differ in the draw date, the cash alternative and
    nothing else. *)
Definition drawn_friday : Competition :=
  mkCompetition "Cash" "https://www.clickcompetitions.co.uk/competition/a/"
    (Some "Win a car") (Some (1 # 2)%Q) (Some "Friday 7pm") (Some "Thursday 9pm")
    (Some 10000) (Some 3033) (Some 1500%Q).

Definition drawn_sunday : Competition :=
  mkCompetition "Cash" "https://www.clickcompetitions.co.uk/competition/a/"
    (Some "Win a car") (Some (1 # 2)%Q) (Some "Sunday noon") (Some "Thursday 9pm")
    (Some 10000) (Some 3033) (Some 2000%Q).

(** A listing page with a relative link, an absolute link carrying a
    query and a fragment, the same page linked twice, an off-site link and
    a link to another category. *)
Definition listing_url : string :=
  "https://www.clickcompetitions.co.uk/competition-category/cash-competitions/".

Definition listing_page : BeautifulSoup :=
  mkSoup [
    "win/competition/car-1";
    "/competition/win-a-car/?utm=1#top";
    "https://www.clickcompetitions.co.uk/competition/win-a-car//";
    "https://evil.example/competition/x/";
    "/competition-category/car-competitions/competition/"
  ] None [].

(** A detail page on which both the pool line and the sold line are
    present, with different pool sizes. *)
Definition detail_page : BeautifulSoup :=
  mkSoup [] (Some (mkTag ["Win a car"])) [
    "Win a car";
    "£0.50 PER ENTRY";
    "10,000 tickets available";
    "Tickets Sold: 3033 of 289995";
    "Cash Alternative: £1,500.00";
    "Live Draw Friday 7pm";
    "Ticket sales end Thursday 9pm"
  ].

(** A detail page with the sold line only. *)
Definition sold_only_page : BeautifulSoup :=
  mkSoup [] (Some (mkTag ["Win a bike"])) [
    "Win a bike";
    "£0.50 PER ENTRY";
    "Tickets Sold: 12 of 5,000"
  ].

(** A detail page whose static text has a title and nothing else. *)
Definition bare_page : BeautifulSoup :=
  mkSoup [] (Some (mkTag ["Win a boat"])) ["Win a boat"].

(** The fetch service: the three pages above, and a failure elsewhere. *)
Definition get_soup (url : string) : result BeautifulSoup :=
  if String.eqb url "https://www.clickcompetitions.co.uk/competition/a/"
  then Ok detail_page
  else if String.eqb url "https://www.clickcompetitions.co.uk/competition/bike/"
  then Ok sold_only_page
  else if String.eqb url "https://www.clickcompetitions.co.uk/competition/boat/"
  then Ok bare_page
  else Raise (OtherException "404 Client Error").

(** A browser whose navigation times out. *)
Definition goto_timeout (url : string) : result Page :=
  Raise (OtherException "Timeout 60000ms exceeded").


(** The detail page of the end-to-end scenario: a price, a pool, no sold
    line. *)
Definition scenario_page : BeautifulSoup :=
  mkSoup [] (Some (mkTag ["Win a car"])) [
    "Win a car";
    "£0.50 PER ENTRY";
    "10,000 tickets available"
  ].

(** The listing page of the end-to-end scenario: a detail link, a link
    that also carries the category marker, and an off-site link. *)
Definition scenario_listing : BeautifulSoup :=
  mkSoup [
    "/competition/win-a-car/";
    "/competition-category/car-competitions/competition/";
    "https://evil.example/competition/x/"
  ] None [].

End Examples.


(** ** A small site *)

Module Site.

(** A category listing four detail pages, one of them missing, and an
    empty category. *)
Definition cash_url : string :=
  "https://www.clickcompetitions.co.uk/competition-category/cash-competitions/".

Definition empty_url : string :=
  "https://www.clickcompetitions.co.uk/competition-category/tech-competitions/".

Definition cash_page : BeautifulSoup :=
  mkSoup [
    "/competition/boat/";
    "/competition/a/?ref=home";
    "/competition/missing/";
    "/competition/a/"
  ] None [].

Definition empty_page : BeautifulSoup := mkSoup ["/about/"] None [].

Definition get_soup (url : string) : result BeautifulSoup :=
  if String.eqb url cash_url then Ok cash_page
  else if String.eqb url empty_url then Ok empty_page
  else Examples.get_soup url.

(** A run over the two categories, then over a category whose listing
    cannot be fetched. *)
Definition args : Cli.Args :=
  Cli.mkArgs [("Cash & Cars", cash_url); ("Tech", empty_url)]
    "combined.csv" "combined.json" "combined.html" "per_category" 0 false.

Definition args_unreachable : Cli.Args :=
  Cli.mkArgs [("Cash & Cars", cash_url);
              ("Gone", "https://www.clickcompetitions.co.uk/competition-category/gone/")]
    "combined.csv" "combined.json" "combined.html" "per_category" 0 false.

End Site.
(** * Properties *)

(** ** Arithmetic of the model *)

Lemma Qeq_bool_pos_false (x : Q) : (0 < x)%Q -> Qeq_bool x 0 = false.
Proof.
  intros H. destruct (Qeq_bool x 0) eqn:E; [|done].
  apply Qeq_bool_eq in E. rewrite E in H. by apply Qlt_irrefl in H.
Qed.

Lemma Qle_bool_pos_false (x : Q) : (0 < x)%Q -> Qle_bool x 0 = false.
Proof.
  intros H. destruct (Qle_bool x 0) eqn:E; [|done].
  apply Qle_bool_imp_le in E. by apply Qlt_not_le in H.
Qed.

Lemma Qle_bool_nonpos_true (x : Q) : (x <= 0)%Q -> Qle_bool x 0 = true.
Proof. intros H. by apply Qle_bool_iff. Qed.







(** ** The metrics *)

Section Metrics.

Variable c : Competition.

Lemma float_truediv_pos (x y : Q) : (0 < y)%Q -> float_truediv x y = Ok (x / y)%Q.
Proof. intros H. unfold float_truediv. by rewrite Qeq_bool_pos_false. Qed.

Lemma int_truediv_pos (n d : Z) :
  0 < d -> int_truediv n d = Ok (inject_Z n / inject_Z d)%Q.
Proof.
  intros H. unfold int_truediv. destruct (Z.eqb_spec d 0); [lia|done].
Qed.

(** The value on a record with a positive price and a positive pool, with
    the ticket count as the code computes it. *)
Lemma win_probability_known (price : Q) (pool : Z) (spend : Q) :
  ticket_price_gbp c = Some price -> tickets_available c = Some pool ->
  (0 < price)%Q -> 0 < pool ->
  win_probability_for_spend c spend =
    Ok (Some (let n := int_of_float (spend / price) in
              if n <=? 0 then 0%Q
              else (inject_Z (Z.min n pool) / inject_Z pool)%Q)).
Proof.
  intros Hp Ha Hprice Hpool. unfold win_probability_for_spend.
  rewrite Hp, Ha. simpl.
  rewrite (Qeq_bool_pos_false _ Hprice), (Qle_bool_pos_false _ Hprice).
  destruct (Z.eqb_spec pool 0); [lia|]. destruct (Z.leb_spec pool 0); [lia|].
  simpl. rewrite (float_truediv_pos _ _ Hprice). simpl.
  destruct (int_of_float (spend / price) <=? 0); [done|].
  rewrite int_truediv_pos by done. done.
Qed.



Lemma win_probability_unknown (spend : Q) :
  ticket_price_gbp c = None \/ tickets_available c = None \/
  (exists price, ticket_price_gbp c = Some price /\ (price <= 0)%Q) \/
  (exists pool, tickets_available c = Some pool /\ pool <= 0) ->
  win_probability_for_spend c spend = Ok None.
Proof.
  unfold win_probability_for_spend.
  intros [H|[H|[(price & H & Hle)|(pool & H & Hle)]]]; rewrite H.
  - done.
  - simpl. by rewrite andb_false_r.
  - simpl. destruct (Qeq_bool price 0); [done|].
    destruct (tickets_available c) as [pool|]; [|done]. simpl.
    destruct (pool =? 0); [done|]. simpl.
    by rewrite (Qle_bool_nonpos_true _ Hle).
  - simpl. destruct (ticket_price_gbp c) as [price|]; [|done]. simpl.
    destruct (Qeq_bool price 0); [done|]. simpl.
    destruct (Z.eqb_spec pool 0); [done|]. simpl.
    destruct (Z.leb_spec pool 0); [|lia]. by rewrite orb_true_r.
Qed.

Lemma win_probability_total (spend : Q) :
  exists o, win_probability_for_spend c spend = Ok o.
Proof.
  destruct (ticket_price_gbp c) as [price|] eqn:Hp;
    [|eexists; apply win_probability_unknown; auto].
  destruct (tickets_available c) as [pool|] eqn:Ha;
    [|eexists; apply win_probability_unknown; auto].
  destruct (Qlt_le_dec 0 price) as [Hprice|Hprice];
    [|eexists; apply win_probability_unknown; eauto 6].
  destruct (Z_lt_le_dec 0 pool) as [Hpool|Hpool];
    [|eexists; apply win_probability_unknown; eauto 6].
  eexists. by apply win_probability_known.
Qed.

Lemma odds_per_ticket_total : exists o, odds_per_ticket c = Ok o.
Proof.
  unfold odds_per_ticket. destruct (tickets_available c) as [n|]; [|eauto].
  simpl. destruct (Z.eqb_spec n 0); simpl; [eauto|].
  destruct (Z.ltb_spec 0 n); [|eauto].
  rewrite float_truediv_pos; [simpl; eauto|].
  change 0%Q with (inject_Z 0). rewrite <- Zlt_Qlt. lia.
Qed.

Lemma company_revenue_total : exists o, company_revenue_gbp c = Ok o.
Proof.
  unfold company_revenue_gbp.
  destruct (ticket_price_gbp c), (tickets_available c); eauto.
Qed.

End Metrics.











(** ** The order of the report *)

Lemma mapM_total {A B} (f : A -> result B) (g : A -> B) (xs : list A) :
  (forall x, f x = Ok (g x)) -> mapM f xs = Ok (map g xs).
Proof.
  intros H. induction xs as [|x xs IH]; simpl; [done|].
  by rewrite H, IH.
Qed.

Section StableSort.

Context {K A : Type}.
Variable ltb : K -> K -> bool.

Hypothesis ltb_asym : forall a b, ltb a b = true -> ltb b a = false.
Hypothesis not_after_trans :
  forall a b c, not_after ltb a b -> not_after ltb b c -> not_after ltb a c.

Lemma insert_keyed_Permutation (x : K * A) (l : list (K * A)) :
  insert_keyed ltb x l ≡ₚ x :: l.
Proof.
  induction l as [|y l IH]; simpl; [done|].
  destruct (ltb (fst y) (fst x)); [|done].
  rewrite IH. apply Permutation_swap.
Qed.

Lemma sort_keyed_Permutation (l : list (K * A)) : sort_keyed ltb l ≡ₚ l.
Proof.
  induction l as [|x l IH]; simpl; [done|].
  by rewrite insert_keyed_Permutation, IH.
Qed.

Lemma insert_keyed_sorted (x : K * A) (l : list (K * A)) :
  StronglySorted (fun p q => not_after ltb (fst p) (fst q)) l ->
  StronglySorted (fun p q => not_after ltb (fst p) (fst q)) (insert_keyed ltb x l).
Proof.
  induction 1 as [|y l Hs IH Hy]; simpl.
  - repeat constructor.
  - destruct (ltb (fst y) (fst x)) eqn:E.
    + constructor; [done|].
      rewrite insert_keyed_Permutation. constructor; [|done].
      by apply ltb_asym.
    + constructor; [by constructor|].
      constructor; [done|].
      eapply Forall_impl; [exact Hy|]. intros z Hz.
      by apply (not_after_trans _ (fst y)).
Qed.

Lemma sort_keyed_sorted (l : list (K * A)) :
  StronglySorted (fun p q => not_after ltb (fst p) (fst q)) (sort_keyed ltb l).
Proof.
  induction l as [|x l IH]; simpl; [constructor|].
  by apply insert_keyed_sorted.
Qed.

Lemma sorted_undecorate (keyf : A -> K) (l : list (K * A)) :
  Forall (fun p => fst p = keyf (snd p)) l ->
  StronglySorted (fun p q => not_after ltb (fst p) (fst q)) l ->
  StronglySorted (fun x y => not_after ltb (keyf x) (keyf y)) (map snd l).
Proof.
  intros Hdec Hs. induction Hs as [|p l Hs IH Hp]; simpl; [constructor|].
  apply Forall_cons in Hdec as [Hp1 Hl]. constructor; [by apply IH|].
  clear IH Hs. induction Hp as [|q l Hq Hp IH]; simpl; [constructor|].
  apply Forall_cons in Hl as [Hq1 Hl]. constructor; [|by apply IH].
  by rewrite <- Hp1, <- Hq1.
Qed.

(** The result of [sorted] when the key function does not raise: a
    permutation of the input, in the order of the keys. *)
Lemma sorted_total (key : A -> result K) (keyf : A -> K) (xs : list A) :
  (forall x, key x = Ok (keyf x)) ->
  exists l, sorted ltb key xs = Ok l /\ l ≡ₚ xs /\
            StronglySorted (fun x y => not_after ltb (keyf x) (keyf y)) l.
Proof.
  intros Hkey. unfold sorted.
  rewrite (mapM_total _ (fun x => (keyf x, x))) by (intros x; by rewrite Hkey).
  simpl. eexists. split; [reflexivity|].
  set (keyed := map (fun x => (keyf x, x)) xs).
  assert (Hperm : sort_keyed ltb keyed ≡ₚ keyed) by apply sort_keyed_Permutation.
  split.
  - rewrite Hperm. unfold keyed. rewrite map_map. simpl. by rewrite map_id.
  - apply sorted_undecorate; [|apply sort_keyed_sorted].
    rewrite Hperm. unfold keyed. clear. induction xs; by constructor.
Qed.

End StableSort.

Lemma sort_value_ltb_false (a b : sort_value) :
  sort_value_ltb b a = false <-> sort_value_le a b.
Proof.
  destruct a as [x|], b as [y|]; simpl; try done.
  rewrite negb_false_iff. apply Qle_bool_iff.
Qed.

Lemma key_not_after (a b : Q * sort_value) :
  not_after key_ltb a b <->
  (fst a < fst b)%Q \/ (fst a == fst b /\ sort_value_le (snd a) (snd b))%Q.
Proof.
  unfold not_after, key_ltb.
  destruct (Qeq_bool (fst b) (fst a)) eqn:E.
  - apply Qeq_bool_iff in E. rewrite sort_value_ltb_false. split.
    + intros H. right. split; [by symmetry|done].
    + intros [H|[_ H]]; [|done]. rewrite E in H. by apply Qlt_irrefl in H.
  - apply Qeq_bool_neq in E. rewrite negb_false_iff, Qle_bool_iff. split.
    + intros H. left. apply Qle_lteq in H as [H|H]; [done|].
      exfalso. apply E. by symmetry.
    + intros [H|[H _]]; [by apply Qlt_le_weak|]. rewrite H. apply Qle_refl.
Qed.

Lemma sort_value_le_trans (a b c : sort_value) :
  sort_value_le a b -> sort_value_le b c -> sort_value_le a c.
Proof.
  destruct a, b, c; simpl; try done. apply Qle_trans.
Qed.

Lemma key_ltb_asym (a b : Q * sort_value) :
  key_ltb a b = true -> key_ltb b a = false.
Proof.
  intros H. apply key_not_after. unfold key_ltb in H.
  destruct (Qeq_bool (fst a) (fst b)) eqn:E.
  - apply Qeq_bool_iff in E. right. split; [done|].
    destruct (snd a) as [x|], (snd b) as [y|]; simpl in *; try done.
    apply negb_true_iff in H. apply Qlt_le_weak, Qnot_le_lt.
    intros Hle. apply Qle_bool_iff in Hle. congruence.
  - left. apply negb_true_iff in H. apply Qnot_le_lt.
    intros Hle. apply Qle_bool_iff in Hle. congruence.
Qed.

Lemma key_not_after_trans (a b c : Q * sort_value) :
  not_after key_ltb a b -> not_after key_ltb b c -> not_after key_ltb a c.
Proof.
  rewrite !key_not_after.
  intros [H1|[H1 H1']] [H2|[H2 H2']].
  - left. by apply (Qlt_trans _ (fst b)).
  - left. by rewrite <- H2.
  - left. by rewrite H1.
  - right. split; [by rewrite H1|]. by apply (sort_value_le_trans _ (snd b)).
Qed.

(** The key of a record, which [sort_key] computes without raising. *)
Lemma sort_key_total (c : Competition) :
  exists k, sort_key c = Ok k /\
            (fst k == - p10_or_zero c)%Q /\ snd k = revenue_or_inf c.
Proof.
  unfold sort_key, p10_or_zero, revenue_or_inf.
  destruct (win_probability_total c 10%Q) as [p ->].
  destruct (company_revenue_total c) as [r ->]. simpl.
  eexists. split; [reflexivity|]. split.
  - unfold rank_key, or_zero. simpl. destruct p as [p|]; simpl; [|done].
    destruct (Qeq_bool p 0) eqn:E; simpl; [|done].
    apply Qeq_bool_iff in E. by rewrite E.
  - by destruct r.
Qed.

Lemma StronglySorted_weaken {A} (R S : A -> A -> Prop) (l : list A) :
  (forall x y, R x y -> S x y) -> StronglySorted R l -> StronglySorted S l.
Proof.
  intros HRS. induction 1 as [|x l Hs IH Hx]; constructor; [done|].
  eapply Forall_impl; [exact Hx|]. auto.
Qed.

Lemma row_html_total (c : Competition) : exists row, row_html c = Ok row.
Proof.
  unfold row_html.
  destruct (win_probability_total c 10%Q) as [p10 ->].
  destruct (win_probability_total c 20%Q) as [p20 ->].
  destruct (company_revenue_total c) as [rev ->]. simpl. eauto.
Qed.

Lemma mapM_ok {A B} (f : A -> result B) (xs : list A) :
  (forall x, exists y, f x = Ok y) -> exists ys, mapM f xs = Ok ys.
Proof.
  intros H. induction xs as [|x xs [ys IH]]; simpl; [eauto|].
  destruct (H x) as [y ->]. simpl. rewrite IH. simpl. eauto.
Qed.

(** The records in report order: a permutation of the input in which
    every record ranks before all the records after it. *)
Lemma sorted_comps_spec (comps : list Competition) :
  exists sorted_comps,
    sorted key_ltb sort_key comps = Ok sorted_comps /\
    sorted_comps ≡ₚ comps /\
    StronglySorted ranks_before sorted_comps.
Proof.
  set (keyf := fun c => match sort_key c with Ok k => k | Raise _ => (0%Q, Inf) end).
  assert (Hkey : forall c, sort_key c = Ok (keyf c)).
  { intros c. unfold keyf. by destruct (sort_key_total c) as (k & -> & _). }
  destruct (sorted_total key_ltb key_ltb_asym key_not_after_trans
              sort_key keyf comps Hkey) as (l & Hl & Hperm & Hsorted).
  exists l. split; [done|]. split; [done|].
  eapply StronglySorted_weaken; [|exact Hsorted].
  intros x y Hxy. apply key_not_after in Hxy.
  destruct (sort_key_total x) as (kx & Hkx & Hx1 & Hx2).
  destruct (sort_key_total y) as (ky & Hky & Hy1 & Hy2).
  rewrite Hkey in Hkx, Hky. injection Hkx as <-. injection Hky as <-.
  unfold ranks_before. rewrite <- Hx2, <- Hy2.
  destruct Hxy as [H|[H H']]; [left|right; split; [|done]]; lra.
Qed.


(** The same order on records of the data model: the record at 5% goes
    last, and of the two at 20% the one with the smaller revenue goes
    first. *)
Example sorted_comps_example :
  sorted key_ltb sort_key
    [Examples.long_shot; Examples.short_odds_dear; Examples.short_odds_cheap] =
  Ok [Examples.short_odds_cheap; Examples.short_odds_dear; Examples.long_shot].
Proof. reflexivity. Qed.

(** ** The exported rows *)

(** The augmented row of a record, entry by entry. *)
Lemma augmented_row_total (c : Competition) :
  exists odds p10 p20 rev,
    odds_per_ticket c = Ok odds /\
    win_probability_for_spend c 10%Q = Ok p10 /\
    win_probability_for_spend c 20%Q = Ok p20 /\
    company_revenue_gbp c = Ok rev /\
    augmented_row c = Ok (asdict c ++ [
      ("odds_per_ticket", of_float odds);
      ("win_prob_for_10gbp", of_float p10);
      ("win_prob_for_20gbp", of_float p20);
      ("company_revenue_gbp", of_float rev)])%list.
Proof.
  destruct (odds_per_ticket_total c) as [odds Ho].
  destruct (win_probability_total c 10%Q) as [p10 Hp10].
  destruct (win_probability_total c 20%Q) as [p20 Hp20].
  destruct (company_revenue_total c) as [rev Hr].
  exists odds, p10, p20, rev. repeat (split; [done|]).
  unfold augmented_row. rewrite Ho, Hp10, Hp20, Hr. reflexivity.
Qed.

Lemma augmented_row_keys (c : Competition) :
  exists row, augmented_row c = Ok row /\ dict_keys row = OUTPUT_FIELDS.
Proof.
  destruct (augmented_row_total c) as (odds & p10 & p20 & rev & _ & _ & _ & _ & ->).
  eexists. split; reflexivity.
Qed.

(** The row [write_csv] writes for a record is the augmented row itself:
    the same columns with the same values. *)
Lemma csv_row_is_augmented_row (c : Competition) :
  exists row,
    augmented_row c = Ok row /\ DictWriter_row OUTPUT_FIELDS row = Ok row.
Proof.
  destruct (augmented_row_total c) as (odds & p10 & p20 & rev & _ & _ & _ & _ & ->).
  eexists. split; reflexivity.
Qed.

Lemma write_json_total (comps : list Competition) :
  exists payload,
    write_json comps = Ok payload /\
    Forall (fun row => dict_keys row = OUTPUT_FIELDS) payload.
Proof.
  unfold write_json. induction comps as [|c comps (payload & IH & Hkeys)]; simpl.
  - by exists [].
  - destruct (augmented_row_keys c) as (row & -> & Hrow). simpl.
    rewrite IH. simpl. exists (row :: payload). split; [done|]. by constructor.
Qed.

Lemma write_csv_rows (comps : list Competition) (payload : list dict) :
  write_json comps = Ok payload -> write_csv comps = Ok (OUTPUT_FIELDS, payload).
Proof.
  unfold write_json, write_csv. revert payload.
  induction comps as [|c comps IH]; simpl; intros payload H.
  - by injection H as <-.
  - destruct (csv_row_is_augmented_row c) as (row & Hrow & Hcsv).
    rewrite Hrow in H |- *. simpl in *. rewrite Hcsv. simpl.
    destruct (mapM augmented_row comps) as [rows|e]; [|done].
    simpl in H. injection H as <-.
    specialize (IH rows eq_refl).
    destruct (mapM _ comps) as [rows'|e]; [|done].
    simpl in IH. injection IH as <-. done.
Qed.




(** The report does not show the draw date or the cash alternative: two
    records that differ only there have the same report row, and different
    JSON rows. *)
Example row_html_omits_fields :
  row_html Examples.drawn_friday = row_html Examples.drawn_sunday /\
  augmented_row Examples.drawn_friday <> augmented_row Examples.drawn_sunday.
Proof. split; [reflexivity|discriminate]. Qed.


(** ** Link extraction *)

Lemma contains_char (c : ascii) (s : string) :
  contains (String c "") s = has_char c s.
Proof.
  induction s as [|a s IH]; simpl; [done|]. rewrite IH.
  destruct (ascii_dec c a) as [->|Hne].
  - rewrite Ascii.eqb_refl. by destruct s.
  - destruct (Ascii.eqb_spec a c); [congruence|done].
Qed.

Lemma has_char_before_same (c : ascii) (s : string) :
  has_char c (before c s) = false.
Proof.
  induction s as [|a s IH]; simpl; [done|].
  destruct (Ascii.eqb a c) eqn:E; simpl; [done|]. by rewrite E.
Qed.

Lemma has_char_before (c d : ascii) (s : string) :
  has_char c s = false -> has_char c (before d s) = false.
Proof.
  induction s as [|a s IH]; simpl; [done|].
  intros [Ha Hs]%orb_false_elim.
  destruct (Ascii.eqb a d); simpl; [done|]. by rewrite Ha, IH.
Qed.

Lemma has_char_rstrip (c d : ascii) (s : string) :
  has_char c s = false -> has_char c (rstrip d s) = false.
Proof.
  induction s as [|a s IH]; simpl; [done|].
  intros [Ha Hs]%orb_false_elim. specialize (IH Hs).
  destruct (rstrip d s) as [|b r]; simpl in *.
  - destruct (Ascii.eqb a d); simpl; [done|]. by rewrite Ha.
  - by rewrite Ha, IH.
Qed.

Lemma has_char_app (c : ascii) (s t : string) :
  has_char c (s ++ t) = has_char c s || has_char c t.
Proof.
  induction s as [|a s IH]; simpl; [done|]. by rewrite IH, orb_assoc.
Qed.

Lemma ends_with_rstrip (c : ascii) (s : string) :
  ends_with c (rstrip c s) = false.
Proof.
  induction s as [|a s IH]; simpl; [done|].
  destruct (rstrip c s) as [|b r]; simpl in *.
  - destruct (Ascii.eqb a c) eqn:E; simpl; [done|]. done.
  - done.
Qed.

(** The canonical form: no query, no fragment, and exactly one slash at
    the end. *)
Lemma canonical_link_shape (full : string) :
  has_char "?" (canonical_link full) = false /\
  has_char "#" (canonical_link full) = false /\
  exists stem, canonical_link full = stem ++ "/" /\ ends_with "/" stem = false.
Proof.
  unfold canonical_link. split; [|split].
  - rewrite has_char_app. simpl. rewrite orb_false_r.
    apply has_char_rstrip, has_char_before_same.
  - rewrite has_char_app. simpl. rewrite orb_false_r.
    apply has_char_rstrip, has_char_before, has_char_before_same.
  - eexists. split; [reflexivity|]. apply ends_with_rstrip.
Qed.

Lemma rstrip_app_stop (c : ascii) (s : string) :
  ends_with c s = false -> rstrip c (s ++ String c "") = s.
Proof.
  induction s as [|a s IH]; simpl.
  - by rewrite Ascii.eqb_refl.
  - destruct s as [|b s]; simpl in *.
    + rewrite Ascii.eqb_refl. by intros ->.
    + intros H. by rewrite (IH H).
Qed.

Lemma before_absent (d : ascii) (s : string) :
  has_char d s = false -> before d s = s.
Proof.
  induction s as [|a s IH]; simpl; [done|].
  intros [-> Hs]%orb_false_elim. by rewrite IH.
Qed.

(** Canonicalising a canonical URL changes nothing. *)
Lemma canonical_link_idempotent (full : string) :
  canonical_link (canonical_link full) = canonical_link full.
Proof.
  destruct (canonical_link_shape full) as (Hq & Hf & stem & Hstem & Hend).
  rewrite Hstem in *. unfold canonical_link at 1.
  rewrite (before_absent "#") by done. rewrite (before_absent "?") by done.
  by rewrite rstrip_app_stop.
Qed.

Lemma sorted_links_spec (links : gset string) :
  NoDup (sorted_links links) /\
  StronglySorted String.le (sorted_links links) /\
  forall u, u ∈ sorted_links links <-> u ∈ links.
Proof.
  unfold sorted_links. split; [|split].
  - rewrite merge_sort_Permutation. apply NoDup_elements.
  - apply (StronglySorted_merge_sort _).
  - intros u. rewrite merge_sort_Permutation. apply elem_of_elements.
Qed.

Section LinkProperties.

Variable urljoin : string -> string -> result string.
Variable netloc : string -> result string.

(** What the loop adds to the set it is given. *)
Lemma collect_links_spec (category_url host : string) (hrefs : list string) :
  forall (acc links : gset string),
    collect_links urljoin netloc category_url host hrefs acc = Ok links ->
    forall u, u ∈ links <->
      u ∈ acc \/
      exists href full,
        href ∈ hrefs /\ kept_link urljoin netloc category_url host href full /\
        u = canonical_link full.
Proof.
  unfold kept_link.
  induction hrefs as [|href hrefs IH]; simpl; intros acc links H u.
  - injection H as <-. split; [auto|].
    intros [?|(href & full & Hin & _)]; [done|]. by apply elem_of_nil in Hin.
  - assert (Hskip : forall acc',
      collect_links urljoin netloc category_url host hrefs acc' = Ok links ->
      (forall full,
         ~ (contains "/competition/" href = true /\
            contains "/competition-category/" href = false /\
            urljoin category_url href = Ok full /\ netloc full = Ok host)) ->
      acc' = acc ->
      u ∈ links <->
      u ∈ acc \/
      exists href' full,
        href' ∈ href :: hrefs /\
        (contains "/competition/" href' = true /\
         contains "/competition-category/" href' = false /\
         urljoin category_url href' = Ok full /\ netloc full = Ok host) /\
        u = canonical_link full).
    { intros acc' H' Hno ->. rewrite (IH _ _ H' u). split.
      - intros [?|(h & f & Hin & Hk & ->)]; [auto|].
        right. exists h, f. split; [by apply list_elem_of_further|done].
      - intros [?|(h & f & Hin & Hk & ->)]; [auto|].
        apply elem_of_cons in Hin as [->|Hin]; [by destruct (Hno f)|].
        right. by exists h, f. }
    destruct (contains "/competition/" href) eqn:E1; simpl in H;
      [|apply (Hskip acc H); [intros f (? & _); congruence|done]].
    destruct (contains "/competition-category/" href) eqn:E2; simpl in H;
      [apply (Hskip acc H); [intros f (_ & ? & _); congruence|done]|].
    unfold normalise_url in H.
    destruct (urljoin category_url href) as [full|e] eqn:E3; simpl in H; [|done].
    destruct (netloc full) as [h|e] eqn:E4; simpl in H; [|done].
    destruct (String.eqb_spec h host) as [->|Hne]; simpl in H.
    + rewrite (IH _ _ H u). rewrite elem_of_union, elem_of_singleton. split.
      * intros [[->|?]|(h & f & Hin & Hk & ->)]; [|auto|].
        -- right. exists href, full. split; [by apply list_elem_of_here|done].
        -- right. exists h, f. split; [by apply list_elem_of_further|done].
      * intros [?|(h & f & Hin & Hk & ->)]; [auto|].
        apply elem_of_cons in Hin as [->|Hin].
        -- destruct Hk as (_ & _ & Hf & _). rewrite E3 in Hf.
           injection Hf as <-. auto.
        -- right. by exists h, f.
    + apply (Hskip acc H); [|done].
      intros f (_ & _ & Hf & Hh). injection Hf as <-.
      rewrite E4 in Hh. by injection Hh.
Qed.

End LinkProperties.

(** The result of the extractor, for every [urljoin] and [netloc]. *)
Lemma extract_links_characterised
    (urljoin : string -> string -> result string)
    (netloc : string -> result string)
    (category_url : string) (soup : BeautifulSoup) (links : list string) :
  extract_competition_links_from_category urljoin netloc category_url soup
    = Ok links ->
  NoDup links /\ StronglySorted String.le links /\
  exists host,
    netloc category_url = Ok host /\
    forall u, u ∈ links <->
      exists href full,
        href ∈ select_a_href soup /\
        kept_link urljoin netloc category_url host href full /\
        u = canonical_link full.
Proof.
  intros H. unfold extract_competition_links_from_category in H.
  destruct (netloc category_url) as [host|e] eqn:Ehost; simpl in H; [|done].
  destruct (collect_links urljoin netloc category_url host (select_a_href soup) ∅)
    as [set|e] eqn:Eset; simpl in H; [|done].
  injection H as <-.
  destruct (sorted_links_spec set) as (Hnodup & Hsorted & Hmem).
  pose proof (collect_links_spec urljoin netloc category_url host _ _ _ Eset) as Hset.
  split; [done|]. split; [done|]. exists host. split; [done|].
  intros u. rewrite Hmem, Hset. split; [|auto].
  intros [Hu|?]; [|done]. by apply elem_of_empty in Hu.
Qed.

(** *** The host of a canonical link, in the model of [urllib.parse] *)

Lemma before_app_stop (d : ascii) (s t : string) :
  before d (s ++ String d t) = before d s.
Proof.
  induction s as [|a s IH]; simpl.
  - by rewrite Ascii.eqb_refl.
  - destruct (Ascii.eqb a d); [done|]. by rewrite IH.
Qed.

Lemma before_rstrip (c : ascii) (s : string) :
  before c (rstrip c s) = before c s.
Proof.
  induction s as [|a s IH]; simpl; [done|].
  destruct (Ascii.eqb a c) eqn:E.
  - destruct (rstrip c s); simpl; [done|]. by rewrite E.
  - destruct (rstrip c s) as [|b r]; simpl in *; rewrite E; by rewrite <- IH.
Qed.

Lemma rstrip_cons (c a : ascii) (s : string) :
  rstrip c (String a s) =
  match rstrip c s with
  | "" => if Ascii.eqb a c then "" else String a ""
  | r => String a r
  end.
Proof. reflexivity. Qed.

Lemma rstrip_cons_other (c a : ascii) (s : string) :
  Ascii.eqb a c = false -> rstrip c (String a s) = String a (rstrip c s).
Proof. intros H. rewrite rstrip_cons, H. by destruct (rstrip c s). Qed.

(** The authority is what stands before the first slash once the query
    and the fragment are cut off. *)
Lemma splitnetloc_before (s : string) :
  fst (Urllib.splitnetloc s) = before "/" (before "?" (before "#" s)).
Proof.
  induction s as [|a s IH]; simpl; [done|].
  destruct (Ascii.eqb_spec a "/") as [->|H1]; simpl; [done|].
  destruct (Ascii.eqb_spec a "?") as [->|H2]; simpl; [done|].
  destruct (Ascii.eqb_spec a "#") as [->|H3]; simpl; [done|].
  destruct (Ascii.eqb_spec a "?"); [done|]. simpl.
  destruct (Ascii.eqb_spec a "/"); [done|].
  destruct (Urllib.splitnetloc s). simpl in *. by rewrite IH.
Qed.

(** A character other than [#], [?] and [/] stays at the head of the
    canonical form. *)
Lemma canonical_link_cons (a : ascii) (s : string) :
  Ascii.eqb a "#" = false -> Ascii.eqb a "?" = false -> Ascii.eqb a "/" = false ->
  canonical_link (String a s) = String a (canonical_link s).
Proof.
  intros H1 H2 H3. unfold canonical_link. simpl. rewrite H1. simpl. rewrite H2.
  by rewrite rstrip_cons_other.
Qed.

(** The canonical form starts with the first character of the URL, or it
    is the single slash. *)
Lemma canonical_link_head (a : ascii) (s : string) :
  (exists rest, canonical_link (String a s) = String a rest) \/
  canonical_link (String a s) = "/".
Proof.
  unfold canonical_link. simpl.
  destruct (Ascii.eqb a "#"); simpl; [by right|].
  destruct (Ascii.eqb a "?"); simpl; [by right|].
  destruct (rstrip "/" (before "?" (before "#" s))) as [|c stem].
  - destruct (Ascii.eqb a "/"); simpl; eauto.
  - simpl. eauto.
Qed.

Lemma authority_canonical_link (r : string) :
  authority (canonical_link r) = authority r.
Proof.
  destruct r as [|a r]; [done|].
  destruct (Ascii.eqb a "/") eqn:Ha.
  - apply Ascii.eqb_eq in Ha as ->.
    destruct r as [|b r]; [done|].
    destruct (Ascii.eqb b "/") eqn:Hb.
    + (* the rest starts with two slashes *)
      apply Ascii.eqb_eq in Hb as ->.
      unfold canonical_link.
      change (before "?" (before "#" (String "/" (String "/" r))))
        with (String "/" (String "/" (before "?" (before "#" r)))).
      rewrite !rstrip_cons. simpl authority at 2.
      rewrite splitnetloc_before,
        <- (before_rstrip "/" (before "?" (before "#" r))).
      destruct (rstrip "/" (before "?" (before "#" r))) as [|c stem] eqn:E;
        [done|].
      change (fst (Urllib.splitnetloc (String c stem ++ "/")) =
              before "/" (String c stem)).
      rewrite splitnetloc_before.
      assert (Hq : has_char "?" (String c stem) = false).
      { rewrite <- E. apply has_char_rstrip, has_char_before_same. }
      assert (Hf : has_char "#" (String c stem) = false).
      { rewrite <- E. apply has_char_rstrip, has_char_before, has_char_before_same. }
      rewrite (before_absent "#"), (before_absent "?").
      * apply before_app_stop.
      * rewrite has_char_app. by rewrite Hq.
      * rewrite has_char_app. by rewrite Hf.
    + (* one slash, then another character *)
      transitivity ""; [|simpl; by rewrite Hb].
      destruct (Ascii.eqb b "#") eqn:H1;
        [apply Ascii.eqb_eq in H1 as ->; reflexivity|].
      destruct (Ascii.eqb b "?") eqn:H2;
        [apply Ascii.eqb_eq in H2 as ->; reflexivity|].
      unfold canonical_link.
      assert (Hcut : before "?" (before "#" (String "/" (String b r))) =
                     String "/" (String b (before "?" (before "#" r)))).
      { simpl. rewrite H1. simpl. by rewrite H2. }
      rewrite Hcut, rstrip_cons, (rstrip_cons_other "/" b) by done.
      simpl. by rewrite Hb.
  - transitivity ""; [|destruct r; simpl; by rewrite ?Ha].
    destruct (canonical_link_head a r) as [[rest H]|H]; rewrite H; [|done].
    destruct rest; simpl; by rewrite ?Ha.
Qed.

Lemma scheme_char_not_delimiter (a : ascii) :
  Urllib.is_scheme_char a = true ->
  Ascii.eqb a "#" = false /\ Ascii.eqb a "?" = false /\ Ascii.eqb a "/" = false /\
  Ascii.eqb a ":" = false.
Proof. destruct a as [[] [] [] [] [] [] [] []]; vm_compute; auto; discriminate. Qed.

(** A URL with a scheme: the canonical form keeps the scheme and is the
    canonical form of the rest after it. *)
Lemma scheme_prefix_canonical_link (u p r : string) :
  Urllib.scheme_prefix u = Some (p, r) ->
  Urllib.scheme_prefix (canonical_link u) = Some (p, canonical_link r).
Proof.
  revert p. induction u as [|a u IH]; simpl; intros p H; [done|].
  destruct (Ascii.eqb a ":") eqn:Ecolon.
  - injection H as <- <-. apply Ascii.eqb_eq in Ecolon as ->.
    rewrite canonical_link_cons by done. reflexivity.
  - destruct (Urllib.is_scheme_char a) eqn:Echar; [|done].
    destruct (Urllib.scheme_prefix u) as [[p' r']|]; [|done].
    injection H as <- <-.
    destruct (scheme_char_not_delimiter a Echar) as (H1 & H2 & H3 & _).
    rewrite canonical_link_cons by done. simpl.
    by rewrite Ecolon, Echar, (IH p' eq_refl).
Qed.

(** A URL without a scheme: its canonical form has none either. *)
Lemma scheme_prefix_canonical_link_None (u : string) :
  Urllib.scheme_prefix u = None ->
  Urllib.scheme_prefix (canonical_link u) = None.
Proof.
  induction u as [|a u IH]; simpl; intros H; [done|].
  destruct (Ascii.eqb a ":") eqn:Ecolon; [done|].
  destruct (Urllib.is_scheme_char a) eqn:Echar.
  - destruct (Urllib.scheme_prefix u) as [[p' r']|]; [done|].
    destruct (scheme_char_not_delimiter a Echar) as (H1 & H2 & H3 & _).
    rewrite canonical_link_cons by done. simpl.
    by rewrite Ecolon, Echar, IH.
  - destruct (canonical_link_head a u) as [[rest Hc]|Hc]; rewrite Hc; [|done].
    simpl. by rewrite Ecolon, Echar.
Qed.

Lemma after_scheme_canonical_link (u : string) :
  authority (after_scheme (canonical_link u)) = authority (after_scheme u).
Proof.
  destruct u as [|a u]; [done|].
  unfold after_scheme at 2.
  destruct (Urllib.is_alpha a) eqn:Ealpha.
  - destruct (Urllib.scheme_prefix (String a u)) as [[p r]|] eqn:Escheme.
    + pose proof (scheme_prefix_canonical_link _ _ _ Escheme) as Hc.
      assert (Hhead : exists rest, canonical_link (String a u) = String a rest).
      { destruct (canonical_link_head a u) as [?|Hone]; [done|].
        rewrite Hone in Hc. done. }
      destruct Hhead as [rest Hrest]. unfold after_scheme.
      rewrite Hrest, Ealpha, <- Hrest, Hc. apply authority_canonical_link.
    + pose proof (scheme_prefix_canonical_link_None _ Escheme) as Hc.
      rewrite <- (authority_canonical_link (String a u)).
      unfold after_scheme.
      destruct (canonical_link (String a u)) as [|b rest]; [done|].
      rewrite Hc. by destruct (Urllib.is_alpha b).
  - rewrite <- (authority_canonical_link (String a u)). unfold after_scheme.
    destruct (canonical_link_head a u) as [[rest Hc]|Hc]; rewrite Hc; [|done].
    by rewrite Ealpha.
Qed.

Lemma urlparse_netloc_authority (u : string) :
  Urllib.urlparse_netloc u =
  if xorb (contains "[" (authority (after_scheme u)))
          (contains "]" (authority (after_scheme u)))
  then Raise ValueError else Ok (authority (after_scheme u)).
Proof.
  unfold Urllib.urlparse_netloc, Urllib.urlsplit.
  assert (Hrest : forall (scheme rest : string),
    (let (netloc, url) :=
       match rest with
       | String a (String b r) =>
           if Ascii.eqb a "/" && Ascii.eqb b "/"
           then Urllib.splitnetloc r else ("", rest)
       | _ => ("", rest)
       end in
     if xorb (contains "[" netloc) (contains "]" netloc)
     then Raise ValueError
     else Ok (Urllib.mkSplit scheme netloc
                (before "?" (before "#" url)) (after "?" (before "#" url))
                (after "#" url))) ≫= (fun r => Ok (Urllib.netloc r)) =
    if xorb (contains "[" (authority rest)) (contains "]" (authority rest))
    then Raise ValueError else Ok (authority rest)).
  { intros scheme rest. unfold authority.
    destruct rest as [|a [|b r]]; [done..|].
    destruct (Ascii.eqb a "/" && Ascii.eqb b "/"); [|done].
    destruct (Urllib.splitnetloc r) as [n r']. simpl.
    by destruct (xorb _ _). }
  unfold after_scheme. destruct u as [|a u]; [exact (Hrest "" "")|].
  destruct (Urllib.is_alpha a); [|exact (Hrest "" (String a u))].
  destruct (Urllib.scheme_prefix (String a u)) as [[p r]|].
  - exact (Hrest (Urllib.lower p) r).
  - exact (Hrest "" (String a u)).
Qed.

(** In the model, [urlparse] gives a URL and its canonical form the same
    [netloc], or raises on both. *)
Lemma urlparse_netloc_canonical_link (u : string) :
  Urllib.urlparse_netloc (canonical_link u) = Urllib.urlparse_netloc u.
Proof.
  by rewrite !urlparse_netloc_authority, after_scheme_canonical_link.
Qed.

(** With the model of [urllib.parse] every returned URL is on the host of
    the listing URL. *)
Lemma extract_links_same_host (category_url : string) (soup : BeautifulSoup)
    (links : list string) :
  extract_competition_links_from_category
    Urllib.urljoin Urllib.urlparse_netloc category_url soup = Ok links ->
  forall u, u ∈ links ->
    Urllib.urlparse_netloc u = Urllib.urlparse_netloc category_url.
Proof.
  intros H u Hu.
  apply extract_links_characterised in H as (_ & _ & host & Hhost & Hchar).
  apply Hchar in Hu as (href & full & _ & (_ & _ & _ & Hfull) & ->).
  by rewrite urlparse_netloc_canonical_link, Hfull, Hhost.
Qed.

(** C6, as stated, fails: on the listing page of the cash category the
    relative link [win/competition/car-1] passes both filters, resolves
    under the listing URL, and is returned with the category marker
    [/competition-category/] in it. *)
Lemma returned_link_contains_category_marker :
  ~ (forall (category_url : string) (soup : BeautifulSoup) (links : list string),
       extract_competition_links_from_category
         Urllib.urljoin Urllib.urlparse_netloc category_url soup = Ok links ->
       NoDup links /\ StronglySorted String.le links /\
       forall u, u ∈ links ->
         Urllib.urlparse_netloc u = Urllib.urlparse_netloc category_url /\
         contains "?" u = false /\ contains "#" u = false /\
         contains "/competition-category/" u = false).
Proof.
  intros H.
  destruct (H Examples.listing_url Examples.listing_page
    ["https://www.clickcompetitions.co.uk/competition-category/cash-competitions/win/competition/car-1/";
     "https://www.clickcompetitions.co.uk/competition/win-a-car/"])
    as (_ & _ & Hall); [by vm_compute|].
  destruct (Hall _ (list_elem_of_here _ _)) as (_ & _ & _ & Hmarker).
  vm_compute in Hmarker. discriminate Hmarker.
Qed.

(** C6, amended: the result is a duplicate-free list sorted
    lexicographically; it holds exactly the canonical forms of the resolved
    links that the loop keeps, those of an href with the detail marker and
    without the category marker whose resolved URL is on the listing
    host; every returned URL is on that host as long as [urlparse] gives a
    resolved link and its canonical form the same [netloc]; no returned
    URL contains [?] or [#], and each ends in exactly one slash.  Nothing
    is said of the category marker in a returned URL. *)
Theorem extract_competition_links_spec
    (urljoin : string -> string -> result string)
    (netloc : string -> result string)
    (category_url : string) (soup : BeautifulSoup) (links : list string) :
  (forall href full,
     href ∈ select_a_href soup -> urljoin category_url href = Ok full ->
     netloc (canonical_link full) = netloc full) ->
  extract_competition_links_from_category urljoin netloc category_url soup
    = Ok links ->
  NoDup links /\ StronglySorted String.le links /\
  exists host,
    netloc category_url = Ok host /\
    (forall u, u ∈ links <->
       exists href full,
         href ∈ select_a_href soup /\
         kept_link urljoin netloc category_url host href full /\
         u = canonical_link full) /\
    (forall u, u ∈ links ->
       netloc u = Ok host /\
       contains "?" u = false /\ contains "#" u = false /\
       exists stem, u = stem ++ "/" /\ ends_with "/" stem = false).
Proof.
  intros Hnetloc H.
  apply extract_links_characterised in H as (Hnodup & Hsorted & host & Hhost & Hchar).
  split; [done|]. split; [done|]. exists host. split; [done|]. split; [done|].
  intros u (href & full & Hin & Hk & ->)%Hchar.
  destruct (canonical_link_shape full) as (Hq & Hf & Hstem).
  rewrite !contains_char. repeat split; try done.
  destruct Hk as (_ & _ & Hjoin & Hhost').
  by rewrite (Hnetloc href full Hin Hjoin).
Qed.

Lemma extract_competition_links_spec_witness :
  NoDup
    ["https://www.clickcompetitions.co.uk/competition-category/cash-competitions/win/competition/car-1/";
     "https://www.clickcompetitions.co.uk/competition/win-a-car/"] /\
  StronglySorted String.le
    ["https://www.clickcompetitions.co.uk/competition-category/cash-competitions/win/competition/car-1/";
     "https://www.clickcompetitions.co.uk/competition/win-a-car/"] /\
  exists host,
    Urllib.urlparse_netloc Examples.listing_url = Ok host /\
    (forall u,
       u ∈ ["https://www.clickcompetitions.co.uk/competition-category/cash-competitions/win/competition/car-1/";
            "https://www.clickcompetitions.co.uk/competition/win-a-car/"] <->
       exists href full,
         href ∈ select_a_href Examples.listing_page /\
         kept_link Urllib.urljoin Urllib.urlparse_netloc
           Examples.listing_url host href full /\
         u = canonical_link full) /\
    (forall u,
       u ∈ ["https://www.clickcompetitions.co.uk/competition-category/cash-competitions/win/competition/car-1/";
            "https://www.clickcompetitions.co.uk/competition/win-a-car/"] ->
       Urllib.urlparse_netloc u = Ok host /\
       contains "?" u = false /\ contains "#" u = false /\
       exists stem, u = stem ++ "/" /\ ends_with "/" stem = false).
Proof.
  apply (extract_competition_links_spec Urllib.urljoin Urllib.urlparse_netloc
           Examples.listing_url Examples.listing_page).
  - intros href full _ _. apply urlparse_netloc_canonical_link.
  - vm_compute. reflexivity.
Defined.

(** ** Field extraction *)

Section FieldProperties.

Variable re_search : string -> string -> option (list string).

(** Runs a rule whose result is [H : rule ... = Ok comp']. *)
Ltac run_rule H :=
  repeat match type of H with
         | context [re_search ?p ?t] => destruct (re_search p t) eqn:?; simpl in H
         | context [group ?m ?i] => destruct (group m i) eqn:?; simpl in H
         | context [int ?s] => destruct (int s) eqn:?; simpl in H
         | context [float ?s] => destruct (float s) eqn:?; simpl in H
         end;
  try discriminate H.

(** The rules other than 3 and 4 leave the two ticket counts alone. *)
Lemma rule_price_frame (text : string) (comp comp' : Competition) :
  rule_price re_search text comp = Ok comp' ->
  tickets_available comp' = tickets_available comp /\
  tickets_sold comp' = tickets_sold comp.
Proof. unfold rule_price. intros H. run_rule H; by injection H as <-. Qed.

Lemma rule_cash_frame (text : string) (comp comp' : Competition) :
  rule_cash re_search text comp = Ok comp' ->
  tickets_available comp' = tickets_available comp /\
  tickets_sold comp' = tickets_sold comp.
Proof. unfold rule_cash. intros H. run_rule H; by injection H as <-. Qed.

Lemma rule_draw_frame (text : string) (comp comp' : Competition) :
  rule_draw re_search text comp = Ok comp' ->
  tickets_available comp' = tickets_available comp /\
  tickets_sold comp' = tickets_sold comp.
Proof. unfold rule_draw. intros H. run_rule H; by injection H as <-. Qed.

Lemma rule_end_frame (text : string) (comp comp' : Competition) :
  rule_end re_search text comp = Ok comp' ->
  tickets_available comp' = tickets_available comp /\
  tickets_sold comp' = tickets_sold comp.
Proof. unfold rule_end. intros H. run_rule H; by injection H as <-. Qed.

(** Rule 3 sets the pool from its capture and leaves the sold count. *)
Lemma rule_avail_spec (text : string) (comp comp' : Competition) :
  rule_avail re_search text comp = Ok comp' ->
  tickets_sold comp' = tickets_sold comp /\
  match re_search AVAIL_RE text with
  | Some m_avail =>
      exists g pool,
        group m_avail 1 = Ok g /\ int (remove_char "," g) = Ok pool /\
        tickets_available comp' = Some pool
  | None => tickets_available comp' = tickets_available comp
  end.
Proof.
  unfold rule_avail. intros H. run_rule H; injection H as <-;
    (split; [done|]); [by repeat eexists|done].
Qed.

(** Rule 4 writes its pool capture only into an unset [tickets_available]. *)
Lemma rule_sold_spec (text : string) (comp comp' : Competition) :
  rule_sold re_search text comp = Ok comp' ->
  match tickets_available comp with
  | Some pool => tickets_available comp' = Some pool
  | None =>
      match re_search SOLD_RE text with
      | Some m_sold =>
          exists g pool,
            group m_sold 2 = Ok g /\ int (remove_char "," g) = Ok pool /\
            tickets_available comp' = Some pool
      | None => tickets_available comp' = None
      end
  end.
Proof.
  unfold rule_sold. intros H.
  destruct (re_search SOLD_RE text) as [m_sold|]; simpl in H.
  - destruct (group m_sold 1) as [g1|]; simpl in H; [|done].
    destruct (int (remove_char "," g1)) as [sold|]; simpl in H; [|done].
    destruct (tickets_available comp) as [pool|] eqn:E; simpl in H.
    + by injection H as <-.
    + destruct (group m_sold 2) as [g2|]; simpl in H; [|done].
      destruct (int (remove_char "," g2)) as [pool|] eqn:E2; simpl in H; [|done].
      injection H as <-. by exists g2, pool.
  - injection H as <-. by destruct (tickets_available comp).
Qed.

(** After rule 4 a sold count comes with a pool. *)
Lemma rule_sold_invariant (text : string) (comp comp' : Competition) :
  rule_sold re_search text comp = Ok comp' ->
  (tickets_sold comp <> None -> tickets_available comp <> None) ->
  tickets_sold comp' <> None -> tickets_available comp' <> None.
Proof.
  unfold rule_sold. intros H Hinv.
  destruct (re_search SOLD_RE text) as [m_sold|]; simpl in H.
  - destruct (group m_sold 1) as [g1|]; simpl in H; [|done].
    destruct (int (remove_char "," g1)) as [sold|]; simpl in H; [|done].
    destruct (tickets_available comp) as [pool|] eqn:E; simpl in H.
    + injection H as <-. simpl. by rewrite E.
    + destruct (group m_sold 2) as [g2|]; simpl in H; [|done].
      destruct (int (remove_char "," g2)) as [pool|]; simpl in H; [|done].
      by injection H as <-.
  - by injection H as <-.
Qed.

(** The six rules in order, as both extractors run them. *)
Lemma rules_spec (text : string) (comp0 comp : Competition) :
  (c ← rule_price re_search text comp0;
   c ← rule_avail re_search text c;
   c ← rule_sold re_search text c;
   c ← rule_cash re_search text c;
   c ← rule_draw re_search text c;
   c ← rule_end re_search text c;
   Ok c) = Ok comp ->
  tickets_available comp0 = None -> tickets_sold comp0 = None ->
  (tickets_sold comp <> None -> tickets_available comp <> None) /\
  match re_search AVAIL_RE text with
  | Some m_avail =>
      exists g pool,
        group m_avail 1 = Ok g /\ int (remove_char "," g) = Ok pool /\
        tickets_available comp = Some pool
  | None =>
      match re_search SOLD_RE text with
      | Some m_sold =>
          exists g pool,
            group m_sold 2 = Ok g /\ int (remove_char "," g) = Ok pool /\
            tickets_available comp = Some pool
      | None => tickets_available comp = None
      end
  end.
Proof.
  intros H Ha0 Hs0.
  destruct (rule_price re_search text comp0) as [c1|] eqn:E1; simpl in H; [|done].
  destruct (rule_avail re_search text c1) as [c2|] eqn:E2; simpl in H; [|done].
  destruct (rule_sold re_search text c2) as [c3|] eqn:E3; simpl in H; [|done].
  destruct (rule_cash re_search text c3) as [c4|] eqn:E4; simpl in H; [|done].
  destruct (rule_draw re_search text c4) as [c5|] eqn:E5; simpl in H; [|done].
  destruct (rule_end re_search text c5) as [c6|] eqn:E6; simpl in H; [|done].
  injection H as <-.
  apply rule_price_frame in E1 as [A1 S1].
  pose proof (rule_sold_invariant _ _ _ E3) as I3.
  apply rule_avail_spec in E2 as [S2 A2].
  apply rule_sold_spec in E3.
  apply rule_cash_frame in E4 as [A4 S4].
  apply rule_draw_frame in E5 as [A5 S5].
  apply rule_end_frame in E6 as [A6 S6].
  rewrite A6, A5, A4, S6, S5, S4. split.
  - apply I3. rewrite S2, S1, Hs0. done.
  - destruct (re_search AVAIL_RE text) as [m_avail|].
    + destruct A2 as (g & pool & Hg & Hpool & A2). rewrite A2 in E3. eauto.
    + rewrite A2, A1, Ha0 in E3. done.
Qed.

End FieldProperties.

Section ExtractorProperties.

Variable re_search : string -> string -> option (list string).
Variable goto : string -> result Page.

Lemma extract_static_counts (category url : string) (soup : BeautifulSoup)
    (comp : Competition) :
  extract_comp_details_static re_search category url soup = Ok comp ->
  (tickets_sold comp <> None -> tickets_available comp <> None) /\
  pool_of_text re_search (page_text soup) comp.
Proof.
  unfold extract_comp_details_static. intros H.
  eapply rules_spec; [exact H|..];
    destruct (select_one_h1 soup) as [h1|]; try done;
    by destruct (truthy_str _).
Qed.

Lemma extract_playwright_counts (category url : string) (comp : Competition) :
  extract_comp_details_playwright re_search goto category url = Ok comp ->
  exists page body,
    goto url = Ok page /\ inner_text_body page = Ok body /\
    (tickets_sold comp <> None -> tickets_available comp <> None) /\
    pool_of_text re_search (replace_nbsp body) comp.
Proof.
  unfold extract_comp_details_playwright. intros H.
  destruct (goto url) as [page|]; simpl in H; [|done].
  destruct (inner_text_body page) as [body|] eqn:Ebody; simpl in H; [|done].
  exists page, body. split; [done|]. split; [done|].
  eapply rules_spec; [exact H|..];
    destruct (text_content_h1 page) as [[h1|]|]; try done;
    by destruct (truthy_str _).
Qed.

Lemma complete_with_pool (comp : Competition) :
  (tickets_sold comp <> None -> tickets_available comp <> None) ->
  is_comp_complete comp =
    is_Some_b (title comp) && is_Some_b (ticket_price_gbp comp) &&
    is_Some_b (tickets_available comp).
Proof.
  intros H. unfold is_comp_complete. f_equal.
  destruct (tickets_available comp); [done|].
  destruct (tickets_sold comp); [|done]. exfalso. by apply H.
Qed.

End ExtractorProperties.

(** C8: the block of rule 4 leaves a [tickets_available] that is already
    set unchanged and writes its pool capture only into an unset one; and
    when rule 3 matches the page text, the record returned by either
    extractor holds the pool that rule 3 captured. *)
Theorem tickets_available_never_overwritten
    (re_search : string -> string -> option (list string)) :
  (forall text comp comp',
     rule_sold re_search text comp = Ok comp' ->
     match tickets_available comp with
     | Some pool => tickets_available comp' = Some pool
     | None =>
         match re_search SOLD_RE text with
         | Some m_sold =>
             exists g pool,
               group m_sold 2 = Ok g /\ int (remove_char "," g) = Ok pool /\
               tickets_available comp' = Some pool
         | None => tickets_available comp' = None
         end
     end) /\
  (forall category url soup comp m_avail,
     extract_comp_details_static re_search category url soup = Ok comp ->
     re_search AVAIL_RE (page_text soup) = Some m_avail ->
     exists g pool,
       group m_avail 1 = Ok g /\ int (remove_char "," g) = Ok pool /\
       tickets_available comp = Some pool) /\
  (forall goto category url page body comp m_avail,
     goto url = Ok page -> inner_text_body page = Ok body ->
     extract_comp_details_playwright re_search goto category url = Ok comp ->
     re_search AVAIL_RE (replace_nbsp body) = Some m_avail ->
     exists g pool,
       group m_avail 1 = Ok g /\ int (remove_char "," g) = Ok pool /\
       tickets_available comp = Some pool).
Proof.
  split; [|split].
  - apply rule_sold_spec.
  - intros category url soup comp m_avail H Hm.
    apply extract_static_counts in H as [_ H].
    unfold pool_of_text in H. by rewrite Hm in H.
  - intros goto category url page body comp m_avail Hpage Hbody H Hm.
    apply extract_playwright_counts in H as (page' & body' & Hp & Hb & _ & H).
    rewrite Hpage in Hp. injection Hp as <-.
    rewrite Hbody in Hb. injection Hb as <-.
    unfold pool_of_text in H. by rewrite Hm in H.
Qed.

Lemma tickets_available_never_overwritten_witness :
  Re.re_search SOLD_RE (page_text Examples.detail_page) =
    Some ["3033"; "289995"] /\
  exists comp g,
    extract_comp_details_static Re.re_search "Cash"
      "https://www.clickcompetitions.co.uk/competition/a/" Examples.detail_page
      = Ok comp /\
    group ["10,000"] 1 = Ok g /\ int (remove_char "," g) = Ok 10000 /\
    tickets_available comp = Some 10000.
Proof.
  split; [reflexivity|].
  destruct (extract_comp_details_static Re.re_search "Cash"
              "https://www.clickcompetitions.co.uk/competition/a/"
              Examples.detail_page) as [comp|e] eqn:E; [|vm_compute in E; discriminate E].
  destruct (proj1 (proj2 (tickets_available_never_overwritten Re.re_search))
              _ _ _ comp ["10,000"] E eq_refl) as (g & pool & Hg & Hpool & Ha).
  exists comp, g. split; [reflexivity|]. split; [exact Hg|].
  injection Hg as <-. vm_compute in Hpool. injection Hpool as <-.
  split; [reflexivity|exact Ha].
Defined.

(** C10: in a record returned by the static or by the fallback extractor
    a set [tickets_sold] comes with a set [tickets_available], so the
    record is complete exactly when title, price and
    [tickets_available] are set. *)
Theorem sold_implies_available
    (re_search : string -> string -> option (list string))
    (goto : string -> result Page) (category url : string) :
  (forall soup comp,
     extract_comp_details_static re_search category url soup = Ok comp ->
     (tickets_sold comp <> None -> tickets_available comp <> None) /\
     is_comp_complete comp =
       is_Some_b (title comp) && is_Some_b (ticket_price_gbp comp) &&
       is_Some_b (tickets_available comp)) /\
  (forall comp,
     extract_comp_details_playwright re_search goto category url = Ok comp ->
     (tickets_sold comp <> None -> tickets_available comp <> None) /\
     is_comp_complete comp =
       is_Some_b (title comp) && is_Some_b (ticket_price_gbp comp) &&
       is_Some_b (tickets_available comp)).
Proof.
  split.
  - intros soup comp H. apply extract_static_counts in H as [H _].
    split; [done|]. by apply complete_with_pool.
  - intros comp H.
    apply extract_playwright_counts in H as (_ & _ & _ & _ & H & _).
    split; [done|]. by apply complete_with_pool.
Qed.

Lemma sold_implies_available_witness :
  exists comp,
    extract_comp_details_static Re.re_search "Cash"
      "https://www.clickcompetitions.co.uk/competition/bike/"
      Examples.sold_only_page = Ok comp /\
    tickets_sold comp = Some 12 /\
    (tickets_sold comp <> None -> tickets_available comp <> None).
Proof.
  eexists. split; [vm_compute; reflexivity|]. split; [reflexivity|].
  apply (proj1 (sold_implies_available Re.re_search Examples.goto_timeout "Cash"
                  "https://www.clickcompetitions.co.uk/competition/bike/")
           Examples.sold_only_page).
  vm_compute. reflexivity.
Defined.

(** ** Orchestration *)

(** C1, as stated, fails: with the fallback enabled, the static record of
    the boat page has a title and nothing else, so it is incomplete; the
    browser times out; the record kept for the URL is the empty record of
    the category and the URL, not the static record with its title. *)
Lemma fallback_failure_drops_static_record :
  ~ (forall (re_search : string -> string -> option (list string))
            (goto : string -> result Page)
            (get_soup : string -> result BeautifulSoup)
            (cat_name url : string) (soup : BeautifulSoup)
            (static : Competition) (e : exn),
       get_soup url = Ok soup ->
       extract_comp_details_static re_search cat_name url soup = Ok static ->
       is_comp_complete static = false ->
       extract_comp_details_playwright re_search goto cat_name url = Raise e ->
       scrape_url re_search goto get_soup true cat_name url = static).
Proof.
  intros H.
  specialize (H Re.re_search Examples.goto_timeout Examples.get_soup "Cash"
                "https://www.clickcompetitions.co.uk/competition/boat/"
                Examples.bare_page
                (set_title
                   (new_Competition "Cash"
                      "https://www.clickcompetitions.co.uk/competition/boat/")
                   (Some "Win a boat"))
                (OtherException "Timeout 60000ms exceeded")
                eq_refl eq_refl eq_refl eq_refl).
  vm_compute in H. discriminate H.
Qed.

(** C1, amended: when the fallback is enabled, the static record is
    incomplete and the fallback extraction raises, the record kept for the
    URL is the record that holds the category and the URL and nothing
    else, the static record being dropped; the loop goes on, and a
    category whose listing yields links ends with one record per link. *)
Theorem fallback_failure_keeps_empty_record
    (urljoin : string -> string -> result string)
    (netloc : string -> result string)
    (re_search : string -> string -> option (list string))
    (goto : string -> result Page)
    (get_soup : string -> result BeautifulSoup)
    (cat_name : string) :
  (forall url soup static e,
     get_soup url = Ok soup ->
     extract_comp_details_static re_search cat_name url soup = Ok static ->
     is_comp_complete static = false ->
     extract_comp_details_playwright re_search goto cat_name url = Raise e ->
     scrape_url re_search goto get_soup true cat_name url =
       new_Competition cat_name url) /\
  (forall use_playwright max_per_category cat_url cat_soup link links,
     get_soup cat_url = Ok cat_soup ->
     extract_competition_links_from_category urljoin netloc cat_url cat_soup =
       Ok (link :: links) ->
     scrape_category urljoin netloc re_search goto get_soup use_playwright
       max_per_category cat_name cat_url =
       Ok (Some (map (scrape_url re_search goto get_soup use_playwright cat_name)
                   (if 0 <? max_per_category
                    then take (Z.to_nat max_per_category) (link :: links)
                    else link :: links)))).
Proof.
  split.
  - intros url soup static e Hsoup Hstatic Hincomplete Hfallback.
    unfold scrape_url, try_url. rewrite Hsoup. simpl.
    rewrite Hstatic. simpl. rewrite Hincomplete. simpl.
    by rewrite Hfallback.
  - intros use_playwright max_per_category cat_url cat_soup link links Hsoup Hlinks.
    unfold scrape_category. rewrite Hsoup. simpl. rewrite Hlinks. simpl.
    destruct (Z.ltb_spec 0 max_per_category) as [Hmax|Hmax].
    + destruct (Z.eqb_spec max_per_category 0); [lia|]. simpl.
      destruct (Z.to_nat max_per_category) as [|k] eqn:Ek; [lia|]. done.
    + by rewrite andb_false_r.
Qed.

Lemma fallback_failure_keeps_empty_record_witness :
  scrape_url Re.re_search Examples.goto_timeout Examples.get_soup true "Cash"
    "https://www.clickcompetitions.co.uk/competition/boat/" =
  new_Competition "Cash" "https://www.clickcompetitions.co.uk/competition/boat/".
Proof.
  apply (proj1 (fallback_failure_keeps_empty_record
                  Urllib.urljoin Urllib.urlparse_netloc Re.re_search
                  Examples.goto_timeout Examples.get_soup "Cash")
           "https://www.clickcompetitions.co.uk/competition/boat/"
           Examples.bare_page
           (set_title
              (new_Competition "Cash"
                 "https://www.clickcompetitions.co.uk/competition/boat/")
              (Some "Win a boat"))
           (OtherException "Timeout 60000ms exceeded"));
    reflexivity.
Defined.

(** ** Scenarios *)

(** A record without a title is incomplete, whatever else it holds. *)
Lemma incomplete_without_title (comp : Competition) :
  title comp = None -> is_comp_complete comp = false.
Proof. intros H. unfold is_comp_complete. by rewrite H. Qed.

(** A page with a price of 0.50 and a pool of 10,000 and no sold line:
    the record has the price and the pool, no sold count, and the win
    probability at a spend of 10 is 20 / 10000. *)
Example scenario_detail_page :
  exists comp,
    extract_comp_details_static Re.re_search "Cash"
      "https://www.clickcompetitions.co.uk/competition/a/"
      Examples.scenario_page = Ok comp /\
    title comp = Some "Win a car" /\
    ticket_price_gbp comp = Some (50 # 100)%Q /\
    tickets_available comp = Some 10000 /\
    tickets_sold comp = None /\
    win_probability_for_spend comp 10%Q =
      Ok (Some (inject_Z 20 / inject_Z 10000)%Q) /\
    (inject_Z 20 / inject_Z 10000 == 2 # 1000)%Q.
Proof.
  eexists. split; [vm_compute; reflexivity|].
  repeat split; reflexivity.
Qed.

(** A listing with a detail link, a link that also has the category
    marker and an off-site link: one canonical URL. *)
Example scenario_listing_page :
  extract_competition_links_from_category Urllib.urljoin Urllib.urlparse_netloc
    Examples.listing_url Examples.scenario_listing =
  Ok ["https://www.clickcompetitions.co.uk/competition/win-a-car/"].
Proof. vm_compute. reflexivity. Qed.

(** A listing without links gives the empty list, which the category
    loop reports as no records. *)
Example scenario_no_links :
  extract_competition_links_from_category Urllib.urljoin Urllib.urlparse_netloc
    Examples.listing_url (mkSoup [] None []) = Ok [].
Proof. vm_compute. reflexivity. Qed.

(** * Further properties *)

(** ** The metrics together *)













(** ** The derived fields of a row *)


(** ** The fields of an extracted record *)

Section RuleProperties.

Variable re_search : string -> string -> option (list string).

Ltac run H :=
  repeat match type of H with
         | context [re_search ?p ?t] => destruct (re_search p t) eqn:?; simpl in H
         | context [group ?m ?i] => destruct (group m i) eqn:?; simpl in H
         | context [int ?s] => destruct (int s) eqn:?; simpl in H
         | context [float ?s] => destruct (float s) eqn:?; simpl in H
         end;
  try discriminate H.

(** What each rule does to the record it is given. *)
Lemma rule_price_inv (text : string) (comp comp' : Competition) :
  rule_price re_search text comp = Ok comp' ->
  exists v, comp' = set_ticket_price_gbp comp v /\
    match re_search PRICE_RE text with
    | Some m => exists g x, group m 1 = Ok g /\ float g = Ok x /\ v = Some x
    | None => v = ticket_price_gbp comp
    end.
Proof.
  unfold rule_price. intros H. run H; injection H as <-.
  - eexists. split; [reflexivity|]. by repeat eexists.
  - exists (ticket_price_gbp comp). split; [by destruct comp|done].
Qed.

Lemma rule_avail_inv (text : string) (comp comp' : Competition) :
  rule_avail re_search text comp = Ok comp' ->
  exists v, comp' = set_tickets_available comp v.
Proof.
  unfold rule_avail. intros H. run H; injection H as <-.
  - by eexists.
  - exists (tickets_available comp). by destruct comp.
Qed.

Lemma rule_sold_inv (text : string) (comp comp' : Competition) :
  rule_sold re_search text comp = Ok comp' ->
  exists v a,
    comp' = set_tickets_available (set_tickets_sold comp v) a /\
    match re_search SOLD_RE text with
    | Some m =>
        exists g x, group m 1 = Ok g /\ int (remove_char "," g) = Ok x /\ v = Some x
    | None => v = tickets_sold comp
    end.
Proof.
  unfold rule_sold. intros H.
  destruct (re_search SOLD_RE text) as [m|]; simpl in H.
  - destruct (group m 1) as [g1|] eqn:Eg; simpl in H; [|done].
    destruct (int (remove_char "," g1)) as [sold|] eqn:Es; simpl in H; [|done].
    destruct (tickets_available comp) as [pool|] eqn:E; simpl in H.
    + injection H as <-. exists (Some sold), (Some pool).
      split; [destruct comp; simpl in *; by rewrite E|]. by exists g1, sold.
    + destruct (group m 2) as [g2|]; simpl in H; [|done].
      destruct (int (remove_char "," g2)) as [pool|]; simpl in H; [|done].
      injection H as <-. exists (Some sold), (Some pool). split; [done|].
      by exists g1, sold.
  - injection H as <-. exists (tickets_sold comp), (tickets_available comp).
    split; [by destruct comp|done].
Qed.

Lemma rule_cash_inv (text : string) (comp comp' : Competition) :
  rule_cash re_search text comp = Ok comp' ->
  exists v, comp' = set_cash_alternative_gbp comp v /\
    match re_search CASH_RE text with
    | Some m =>
        exists g x, group m 1 = Ok g /\ float (remove_char "," g) = Ok x /\ v = Some x
    | None => v = cash_alternative_gbp comp
    end.
Proof.
  unfold rule_cash. intros H. run H; injection H as <-.
  - eexists. split; [reflexivity|]. by repeat eexists.
  - exists (cash_alternative_gbp comp). split; [by destruct comp|done].
Qed.

Lemma rule_draw_inv (text : string) (comp comp' : Competition) :
  rule_draw re_search text comp = Ok comp' ->
  exists v, comp' = set_draw_datetime comp v /\
    match re_search DRAW_RE text with
    | Some m => exists g, group m 1 = Ok g /\ v = Some (strip g)
    | None => v = draw_datetime comp
    end.
Proof.
  unfold rule_draw. intros H. run H; injection H as <-.
  - eexists. split; [reflexivity|]. by eexists.
  - exists (draw_datetime comp). split; [by destruct comp|done].
Qed.

Lemma rule_end_inv (text : string) (comp comp' : Competition) :
  rule_end re_search text comp = Ok comp' ->
  exists v, comp' = set_sales_end_datetime comp v /\
    match re_search END_RE text with
    | Some m => exists g, group m 1 = Ok g /\ v = Some (strip g)
    | None => v = sales_end_datetime comp
    end.
Proof.
  unfold rule_end. intros H. run H; injection H as <-.
  - eexists. split; [reflexivity|]. by eexists.
  - exists (sales_end_datetime comp). split; [by destruct comp|done].
Qed.

(** The record after the six rules, field by field. *)
Lemma apply_rules_fields (text : string) (comp0 comp : Competition) :
  apply_rules re_search text comp0 = Ok comp ->
  ticket_price_gbp comp0 = None -> tickets_sold comp0 = None ->
  cash_alternative_gbp comp0 = None -> draw_datetime comp0 = None ->
  sales_end_datetime comp0 = None ->
  category comp = category comp0 /\ url comp = url comp0 /\
  title comp = title comp0 /\
  captured re_search float PRICE_RE 1 text (ticket_price_gbp comp) /\
  captured re_search (fun g => int (remove_char "," g)) SOLD_RE 1 text
    (tickets_sold comp) /\
  captured re_search (fun g => float (remove_char "," g)) CASH_RE 1 text
    (cash_alternative_gbp comp) /\
  captured re_search (fun g => Ok (strip g)) DRAW_RE 1 text (draw_datetime comp) /\
  captured re_search (fun g => Ok (strip g)) END_RE 1 text
    (sales_end_datetime comp).
Proof.
  unfold apply_rules, captured. intros H Hp0 Hs0 Hc0 Hd0 He0.
  destruct (rule_price re_search text comp0) as [c1|] eqn:E1; simpl in H; [|done].
  destruct (rule_avail re_search text c1) as [c2|] eqn:E2; simpl in H; [|done].
  destruct (rule_sold re_search text c2) as [c3|] eqn:E3; simpl in H; [|done].
  destruct (rule_cash re_search text c3) as [c4|] eqn:E4; simpl in H; [|done].
  destruct (rule_draw re_search text c4) as [c5|] eqn:E5; simpl in H; [|done].
  destruct (rule_end re_search text c5) as [c6|] eqn:E6; simpl in H; [|done].
  injection H as <-.
  apply rule_price_inv in E1 as (v1 & -> & H1).
  apply rule_avail_inv in E2 as (v2 & ->).
  apply rule_sold_inv in E3 as (v3 & a3 & -> & H3).
  apply rule_cash_inv in E4 as (v4 & -> & H4).
  apply rule_draw_inv in E5 as (v5 & -> & H5).
  apply rule_end_inv in E6 as (v6 & -> & H6).
  simpl in *. rewrite Hp0 in H1. rewrite Hs0 in H3. rewrite Hc0 in H4.
  rewrite Hd0 in H5. rewrite He0 in H6.
  repeat split; try done.
  - destruct (re_search DRAW_RE text); [|done].
    destruct H5 as (g & Hg & ->). by exists g, (strip g).
  - destruct (re_search END_RE text); [|done].
    destruct H6 as (g & Hg & ->). by exists g, (strip g).
Qed.


End RuleProperties.

Section ExtractorFields.

Variable re_search : string -> string -> option (list string).
Variable goto : string -> result Page.

Lemma extract_static_rules (cat_name link : string) (soup : BeautifulSoup) :
  extract_comp_details_static re_search cat_name link soup =
  apply_rules re_search (page_text soup)
    (set_title (new_Competition cat_name link) (static_title soup)).
Proof.
  unfold extract_comp_details_static, static_title.
  destruct (select_one_h1 soup) as [h1|]; [|done].
  by destruct (truthy_str _).
Qed.

Lemma extract_playwright_rules (cat_name link : string) :
  extract_comp_details_playwright re_search goto cat_name link =
  page ← goto link;
  body ← inner_text_body page;
  apply_rules re_search (replace_nbsp body)
    (set_title (new_Competition cat_name link) (rendered_title page)).
Proof.
  unfold extract_comp_details_playwright, rendered_title.
  destruct (goto link) as [page|]; simpl; [|done].
  destruct (text_content_h1 page) as [[h1|]|]; [|done..].
  by destruct (truthy_str h1).
Qed.

End ExtractorFields.





(** ** The loop over the links of a category *)

Section LoopProperties.

Variable urljoin : string -> string -> result string.
Variable netloc : string -> result string.
Variable re_search : string -> string -> option (list string).
Variable goto : string -> result Page.
Variable get_soup : string -> result BeautifulSoup.

Lemma extract_static_identity (cat_name link : string) (soup : BeautifulSoup)
    (comp : Competition) :
  extract_comp_details_static re_search cat_name link soup = Ok comp ->
  category comp = cat_name /\ url comp = link.
Proof.
  intros H. rewrite extract_static_rules in H.
  apply apply_rules_fields in H; try reflexivity.
  by destruct H as (H1 & H2 & _).
Qed.

Lemma extract_playwright_identity (cat_name link : string) (comp : Competition) :
  extract_comp_details_playwright re_search goto cat_name link = Ok comp ->
  category comp = cat_name /\ url comp = link.
Proof.
  intros H. rewrite extract_playwright_rules in H.
  destruct (goto link) as [page|]; simpl in H; [|done].
  destruct (inner_text_body page) as [body|]; simpl in H; [|done].
  apply apply_rules_fields in H; try reflexivity.
  by destruct H as (H1 & H2 & _).
Qed.

Lemma scrape_url_identity (use_playwright : bool) (cat_name link : string) :
  category (scrape_url re_search goto get_soup use_playwright cat_name link)
    = cat_name /\
  url (scrape_url re_search goto get_soup use_playwright cat_name link) = link.
Proof.
  unfold scrape_url.
  destruct (try_url _ _ _ _ _ _) as [comp|e] eqn:E; [|done].
  unfold try_url in E.
  destruct (get_soup link) as [soup|]; simpl in E; [|done].
  destruct (extract_comp_details_static _ _ _ soup) as [c|] eqn:Es;
    simpl in E; [|done].
  destruct (use_playwright && negb (is_comp_complete c)).
  - by apply extract_playwright_identity in E.
  - injection E as <-. by apply extract_static_identity in Es.
Qed.

Lemma map_url_scrape_url (use_playwright : bool) (cat_name : string)
    (links : list string) :
  map url (map (scrape_url re_search goto get_soup use_playwright cat_name) links)
    = links.
Proof.
  induction links as [|l links IH]; [done|]. simpl.
  by rewrite IH, (proj2 (scrape_url_identity _ _ _)).
Qed.

Lemma StronglySorted_take {A} (R : A -> A -> Prop) (n : nat) (l : list A) :
  StronglySorted R l -> StronglySorted R (take n l).
Proof.
  intros H. revert n. induction H as [|x l H IH Hx]; intros [|n]; simpl;
    try constructor; [apply IH|].
  by apply Forall_take.
Qed.

End LoopProperties.

(** X7: when the listing page of a category is fetched and links are
    extracted, the category yields no records if there is no link, and
    otherwise one record per link kept (all links, or the first
    [max_per_category] of them for a positive limit), in the order of the
    links: the records carry the category name and the urls of the links,
    so their urls are sorted and free of duplicates, also when a detail
    page fails. *)
Theorem scrape_category_records
    (urljoin : string -> string -> result string)
    (netloc : string -> result string)
    (re_search : string -> string -> option (list string))
    (goto : string -> result Page)
    (get_soup : string -> result BeautifulSoup)
    (use_playwright : bool) (max_per_category : Z)
    (cat_name cat_url : string) (cat_soup : BeautifulSoup)
    (links : list string) :
  get_soup cat_url = Ok cat_soup ->
  extract_competition_links_from_category urljoin netloc cat_url cat_soup
    = Ok links ->
  (links = [] ->
   scrape_category urljoin netloc re_search goto get_soup use_playwright
     max_per_category cat_name cat_url = Ok None) /\
  (links <> [] ->
   exists comps,
     scrape_category urljoin netloc re_search goto get_soup use_playwright
       max_per_category cat_name cat_url = Ok (Some comps) /\
     map url comps =
       (if 0 <? max_per_category
        then take (Z.to_nat max_per_category) links else links) /\
     Forall (fun c => category c = cat_name) comps /\
     NoDup (map url comps) /\ StronglySorted String.le (map url comps) /\
     (0 < max_per_category -> Z.of_nat (length comps) <= max_per_category)).
Proof.
  intros Hsoup Hlinks.
  destruct (extract_links_characterised _ _ _ _ _ Hlinks) as (Hnodup & Hsorted & _).
  unfold scrape_category. rewrite Hsoup. simpl. rewrite Hlinks. simpl.
  assert (negb (max_per_category =? 0) && (0 <? max_per_category)
          = (0 <? max_per_category)) as ->.
  { destruct (Z.ltb_spec 0 max_per_category), (Z.eqb_spec max_per_category 0);
      simpl; try reflexivity; lia. }
  split.
  - intros ->. rewrite take_nil. by destruct (0 <? max_per_category).
  - intros Hne.
    set (kept := if 0 <? max_per_category
                 then take (Z.to_nat max_per_category) links else links).
    assert (kept <> []) as Hkept.
    { subst kept. destruct (Z.ltb_spec 0 max_per_category); [|done].
      destruct links as [|l links]; [done|].
      destruct (Z.to_nat max_per_category) eqn:En; [lia|done]. }
    exists (map (scrape_url re_search goto get_soup use_playwright cat_name) kept).
    split; [by destruct kept|].
    split; [apply map_url_scrape_url|].
    split.
    { apply Forall_forall. intros c Hc.
      apply list_elem_of_fmap in Hc as (l & -> & _).
      apply scrape_url_identity. }
    rewrite map_url_scrape_url, length_map. subst kept.
    destruct (Z.ltb_spec 0 max_per_category).
    + split; [exact (sublist_NoDup _ _ Hnodup (sublist_take _ _))|].
      split; [by apply StronglySorted_take|].
      intros _. rewrite length_take. lia.
    + split; [done|]. split; [done|]. lia.
Qed.

Lemma scrape_category_records_witness :
  exists comps,
    scrape_category Urllib.urljoin Urllib.urlparse_netloc Re.re_search
      Examples.goto_timeout Site.get_soup false 2 "Cash" Site.cash_url
      = Ok (Some comps) /\
    map url comps =
      take 2 ["https://www.clickcompetitions.co.uk/competition/a/";
              "https://www.clickcompetitions.co.uk/competition/boat/";
              "https://www.clickcompetitions.co.uk/competition/missing/"] /\
    Forall (fun c => category c = "Cash") comps /\
    NoDup (map url comps) /\ StronglySorted String.le (map url comps) /\
    (0 < 2 -> Z.of_nat (length comps) <= 2).
Proof.
  apply (proj2 (scrape_category_records Urllib.urljoin Urllib.urlparse_netloc
                  Re.re_search Examples.goto_timeout Site.get_soup false 2
                  "Cash" Site.cash_url Site.cash_page
                  ["https://www.clickcompetitions.co.uk/competition/a/";
                   "https://www.clickcompetitions.co.uk/competition/boat/";
                   "https://www.clickcompetitions.co.uk/competition/missing/"]
                  ltac:(reflexivity) ltac:(vm_compute; reflexivity))).
  discriminate.
Defined.

(** X8: the browser is consulted only for an incomplete static record
    and only when the fallback is enabled: otherwise the record kept for a
    link is the static record, whatever the browser would do; and when it
    is consulted, the record kept is a function of the rendered page
    alone: nothing of the static record is merged into it. *)
Theorem fallback_replaces_static_record
    (re_search : string -> string -> option (list string))
    (get_soup : string -> result BeautifulSoup)
    (use_playwright : bool) (cat_name link : string)
    (soup : BeautifulSoup) (static : Competition) :
  get_soup link = Ok soup ->
  extract_comp_details_static re_search cat_name link soup = Ok static ->
  (use_playwright = false \/ is_comp_complete static = true ->
   forall goto,
     scrape_url re_search goto get_soup use_playwright cat_name link = static) /\
  (use_playwright = true -> is_comp_complete static = false ->
   forall goto get_soup' soup' static',
     get_soup' link = Ok soup' ->
     extract_comp_details_static re_search cat_name link soup' = Ok static' ->
     is_comp_complete static' = false ->
     scrape_url re_search goto get_soup use_playwright cat_name link =
     scrape_url re_search goto get_soup' use_playwright cat_name link).
Proof.
  intros Hsoup Hstatic. split.
  - intros H goto. unfold scrape_url, try_url.
    rewrite Hsoup. simpl. rewrite Hstatic. simpl.
    destruct H as [-> | ->]; [done|]. by rewrite andb_false_r.
  - intros -> Hinc goto get_soup' soup' static' Hsoup' Hstatic' Hinc'.
    unfold scrape_url, try_url.
    rewrite Hsoup, Hsoup'. simpl. rewrite Hstatic, Hstatic'. simpl.
    by rewrite Hinc, Hinc'.
Qed.

Lemma fallback_replaces_static_record_witness :
  (true = false \/
   is_comp_complete
     (mkCompetition "Cash" "https://www.clickcompetitions.co.uk/competition/boat/"
        (Some "Win a boat") None None None None None None) = true ->
   forall goto,
     scrape_url Re.re_search goto Examples.get_soup true "Cash"
       "https://www.clickcompetitions.co.uk/competition/boat/" =
     mkCompetition "Cash" "https://www.clickcompetitions.co.uk/competition/boat/"
       (Some "Win a boat") None None None None None None) /\
  (true = true ->
   is_comp_complete
     (mkCompetition "Cash" "https://www.clickcompetitions.co.uk/competition/boat/"
        (Some "Win a boat") None None None None None None) = false ->
   forall goto get_soup' soup' static',
     get_soup' "https://www.clickcompetitions.co.uk/competition/boat/" = Ok soup' ->
     extract_comp_details_static Re.re_search "Cash"
       "https://www.clickcompetitions.co.uk/competition/boat/" soup' = Ok static' ->
     is_comp_complete static' = false ->
     scrape_url Re.re_search goto Examples.get_soup true "Cash"
       "https://www.clickcompetitions.co.uk/competition/boat/" =
     scrape_url Re.re_search goto get_soup' true "Cash"
       "https://www.clickcompetitions.co.uk/competition/boat/").
Proof.
  apply (fallback_replaces_static_record Re.re_search Examples.get_soup true
           "Cash" "https://www.clickcompetitions.co.uk/competition/boat/"
           Examples.bare_page);
    vm_compute; reflexivity.
Defined.

(** ** The run *)

Lemma write_html_total (comps : list Competition) :
  exists rows, write_html comps = Ok rows.
Proof.
  unfold write_html.
  destruct (sorted_comps_spec comps) as (l & -> & _). simpl.
  apply mapM_ok, row_html_total.
Qed.

Lemma write_csv_export_rows (comps : list Competition) :
  write_json comps = Ok (export_rows comps) /\
  write_csv comps = Ok (OUTPUT_FIELDS, export_rows comps).
Proof.
  destruct (write_json_total comps) as (payload & H & _).
  unfold export_rows. rewrite H. split; [done|]. by apply write_csv_rows.
Qed.

Lemma mapM_app {A B} (f : A -> result B) (xs ys : list A) :
  mapM f (xs ++ ys)%list =
  match mapM f xs, mapM f ys with
  | Ok l, Ok r => Ok (l ++ r)%list
  | Raise e, _ => Raise e
  | Ok _, Raise e => Raise e
  end.
Proof.
  induction xs as [|x xs IH]; simpl.
  - by destruct (mapM f ys).
  - destruct (f x); simpl; [|done]. rewrite IH.
    destruct (mapM f xs); simpl; [|done]. by destruct (mapM f ys).
Qed.

Lemma export_rows_app (xs ys : list Competition) :
  export_rows (xs ++ ys)%list = (export_rows xs ++ export_rows ys)%list.
Proof.
  destruct (write_json_total xs) as (l & Hl & _).
  destruct (write_json_total ys) as (r & Hr & _).
  unfold export_rows, write_json in *. by rewrite mapM_app, Hl, Hr.
Qed.

Lemma export_rows_concat (ls : list (list Competition)) :
  export_rows (concat ls) = concat (map export_rows ls).
Proof.
  induction ls as [|l ls IH]; simpl; [done|].
  by rewrite export_rows_app, IH.
Qed.

Section RunProperties.

Variable urljoin : string -> string -> result string.
Variable netloc : string -> result string.
Variable re_search : string -> string -> option (list string).
Variable goto : string -> result Page.
Variable get_soup : string -> result BeautifulSoup.
Variable args : Cli.Args.

Local Abbreviation scrape cat :=
  (scrape_category urljoin netloc re_search goto get_soup
     (Cli.arg_use_playwright args) (Cli.arg_max_per_category args)
     (fst cat) (snd cat)).
Local Abbreviation records := (category_records urljoin netloc re_search goto get_soup args).
Local Abbreviation file_of := (category_file urljoin netloc re_search goto get_soup args).
Local Abbreviation loop := (Cli.category_loop urljoin netloc re_search goto get_soup args).

Lemma scrape_category_nonempty (cat : string * string) (comps : list Competition) :
  scrape cat = Ok (Some comps) -> comps <> [].
Proof.
  unfold scrape_category.
  destruct (get_soup (snd cat)); simpl; [|done].
  destruct (extract_competition_links_from_category _ _ _ _) as [links|];
    simpl; [|done].
  destruct (negb _ && _); [destruct (take _ links)|destruct links];
    by intros [= <-].
Qed.

(** The loop over the categories, by its accumulators. *)
Lemma category_loop_spec (cats : list (string * string)) :
  forall (all_comps : list Competition) (files : list (Cli.path * Cli.content)),
    match loop cats all_comps files with
    | (files', Ok all_comps') =>
        all_comps' = (all_comps ++ concat (map records cats))%list /\
        files' = (files ++
          (if truthy_str (Cli.arg_per_category_out_dir args)
           then omap file_of cats else []))%list /\
        Forall (fun cat => exists r, scrape cat = Ok r) cats
    | (files', Raise e) =>
        (exists written,
           files' = (files ++ written)%list /\ forallb in_out_dir written = true) /\
        exists cat, cat ∈ cats /\ scrape cat = Raise e
    end.
Proof.
  induction cats as [|[cat_name cat_url] cats IH]; intros all_comps files.
  - simpl. rewrite app_nil_r. split; [done|]. split; [|done].
    destruct (truthy_str _); by rewrite app_nil_r.
  - cbn [Cli.category_loop].
    change (scrape_category urljoin netloc re_search goto get_soup
              (Cli.arg_use_playwright args) (Cli.arg_max_per_category args)
              cat_name cat_url) with (scrape (cat_name, cat_url)).
    destruct (scrape (cat_name, cat_url)) as [[comps|]|e] eqn:E.
    + pose proof (scrape_category_nonempty _ _ E) as Hne.
      assert (records (cat_name, cat_url) = comps) as Hrec.
      { unfold category_records. by rewrite E. }
      assert (file_of (cat_name, cat_url) =
              Some (Cli.InDir (Cli.arg_per_category_out_dir args)
                      (Cli.safe_name cat_name ++ ".csv"),
                    Cli.Csv (OUTPUT_FIELDS, export_rows comps))) as Hfile.
      { unfold category_file. rewrite Hrec. by destruct comps. }
      destruct (truthy_str (Cli.arg_per_category_out_dir args)) eqn:Edir.
      * rewrite (proj2 (write_csv_export_rows comps)).
        specialize (IH (all_comps ++ comps)%list
          (files ++ [(Cli.InDir (Cli.arg_per_category_out_dir args)
                        (Cli.safe_name cat_name ++ ".csv"),
                      Cli.Csv (OUTPUT_FIELDS, export_rows comps))])%list).
        destruct (loop cats _ _) as [files' [all'|e]].
        -- destruct IH as (-> & -> & Hall).
           split; [simpl; by rewrite Hrec, !app_assoc|].
           split; [simpl; by rewrite Hfile, <- !app_assoc|].
           constructor; [by eexists|done].
        -- destruct IH as ((written & -> & Hw) & cat & Hcat & Hraise).
           split.
           ++ eexists. split; [by rewrite <- app_assoc|]. done.
           ++ exists cat. split; [by apply list_elem_of_further|done].
      * specialize (IH (all_comps ++ comps)%list files).
        destruct (loop cats _ _) as [files' [all'|e]].
        -- destruct IH as (-> & -> & Hall).
           split; [simpl; by rewrite Hrec, !app_assoc|].
           split; [done|]. constructor; [by eexists|done].
        -- destruct IH as (Hw & cat & Hcat & Hraise).
           split; [done|].
           exists cat. split; [by apply list_elem_of_further|done].
    + assert (records (cat_name, cat_url) = []) as Hrec.
      { unfold category_records. by rewrite E. }
      assert (file_of (cat_name, cat_url) = None) as Hfile.
      { unfold category_file. by rewrite Hrec. }
      specialize (IH all_comps files).
      destruct (loop cats _ _) as [files' [all'|e]].
      * destruct IH as (-> & -> & Hall).
        split; [simpl; by rewrite Hrec|].
        split; [simpl; by rewrite Hfile|].
        constructor; [by eexists|done].
      * destruct IH as (Hw & cat & Hcat & Hraise).
        split; [done|].
        exists cat. split; [by apply list_elem_of_further|done].
    + split.
      * exists []. by rewrite app_nil_r.
      * exists (cat_name, cat_url). split; [apply list_elem_of_here|done].
Qed.

(** A listing page that cannot be scraped stops the loop. *)
Lemma category_loop_raises (cats : list (string * string)) :
  forall (all_comps : list Competition) (files : list (Cli.path * Cli.content)),
    (exists cat e, cat ∈ cats /\ scrape cat = Raise e) ->
    exists e, snd (loop cats all_comps files) = Raise e.
Proof.
  intros all_comps files (cat & e & Hcat & Hraise).
  pose proof (category_loop_spec cats all_comps files) as H.
  destruct (loop cats all_comps files) as [files' [all'|e']]; [|by eexists].
  destruct H as (_ & _ & Hall). rewrite Forall_forall in Hall.
  destruct (Hall cat Hcat) as (r & Hr). congruence.
Qed.

End RunProperties.



(** X10: a run that ends has written, in this order, one file per
    category that has links (only when a per-category directory is given),
    named after the category and holding the export rows of its records,
    then the combined CSV, JSON and HTML files.  The combined files are
    built from the records of the categories in the order of the command
    line, so that the combined export rows are the per-category rows put
    end to end. *)
Theorem main_outputs
    (urljoin : string -> string -> result string)
    (netloc : string -> result string)
    (re_search : string -> string -> option (list string))
    (goto : string -> result Page)
    (get_soup : string -> result BeautifulSoup)
    (args : Cli.Args) :
  snd (Cli.main urljoin netloc re_search goto get_soup args) = Ok () ->
  let records := category_records urljoin netloc re_search goto get_soup args in
  let all_comps := concat (map records (Cli.arg_category args)) in
  exists payload rows,
    write_json all_comps = Ok payload /\
    payload = concat (map (fun cat => export_rows (records cat))
                        (Cli.arg_category args)) /\
    write_html all_comps = Ok rows /\
    fst (Cli.main urljoin netloc re_search goto get_soup args) =
      ((if truthy_str (Cli.arg_per_category_out_dir args)
        then omap (category_file urljoin netloc re_search goto get_soup args)
               (Cli.arg_category args)
        else []) ++
       [(Cli.File (Cli.arg_out args), Cli.Csv (OUTPUT_FIELDS, payload));
        (Cli.File (Cli.arg_out_json args), Cli.Json payload);
        (Cli.File (Cli.arg_html args), Cli.Html rows)])%list.
Proof.
  pose proof (category_loop_spec urljoin netloc re_search goto get_soup args
                (Cli.arg_category args) [] []) as Hloop.
  unfold Cli.main.
  destruct (Cli.category_loop _ _ _ _ _ _ _ _ _) as [files [all_comps|e']];
    [|done].
  destruct Hloop as (Hall & Hfiles & _). simpl in Hall, Hfiles.
  rewrite (proj2 (write_csv_export_rows all_comps)).
  rewrite (proj1 (write_csv_export_rows all_comps)).
  destruct (write_html_total all_comps) as (rows & Hrows). rewrite Hrows.
  cbv zeta. intros _. rewrite <- Hall.
  exists (export_rows all_comps), rows.
  split; [apply write_csv_export_rows|].
  split; [by rewrite Hall, export_rows_concat, map_map|].
  split; [done|]. simpl. by rewrite Hfiles, <- !app_assoc.
Qed.

Lemma main_outputs_witness :
  let records :=
    category_records Urllib.urljoin Urllib.urlparse_netloc Re.re_search
      Examples.goto_timeout Site.get_soup Site.args in
  let all_comps := concat (map records (Cli.arg_category Site.args)) in
  exists payload rows,
    write_json all_comps = Ok payload /\
    payload = concat (map (fun cat => export_rows (records cat))
                        (Cli.arg_category Site.args)) /\
    write_html all_comps = Ok rows /\
    fst (Cli.main Urllib.urljoin Urllib.urlparse_netloc Re.re_search
           Examples.goto_timeout Site.get_soup Site.args) =
      ((if truthy_str (Cli.arg_per_category_out_dir Site.args)
        then omap (category_file Urllib.urljoin Urllib.urlparse_netloc
                     Re.re_search Examples.goto_timeout Site.get_soup Site.args)
               (Cli.arg_category Site.args)
        else []) ++
       [(Cli.File (Cli.arg_out Site.args), Cli.Csv (OUTPUT_FIELDS, payload));
        (Cli.File (Cli.arg_out_json Site.args), Cli.Json payload);
        (Cli.File (Cli.arg_html Site.args), Cli.Html rows)])%list.
Proof.
  apply (main_outputs Urllib.urljoin Urllib.urlparse_netloc Re.re_search
           Examples.goto_timeout Site.get_soup Site.args).
  vm_compute. reflexivity.
Defined.

(** The run over the small site: the per-category file of the first
    category, named [Cash_Cars.csv], then the three combined files; the
    second category has no link and no file. *)
Example site_run_files :
  map fst (fst (Cli.main Urllib.urljoin Urllib.urlparse_netloc Re.re_search
                  Examples.goto_timeout Site.get_soup Site.args)) =
  [Cli.InDir "per_category" "Cash_Cars.csv"; Cli.File "combined.csv";
   Cli.File "combined.json"; Cli.File "combined.html"] /\
  Cli.main Urllib.urljoin Urllib.urlparse_netloc Re.re_search
    Examples.goto_timeout Site.get_soup Site.args_unreachable =
  ([(Cli.InDir "per_category" "Cash_Cars.csv",
     Cli.Csv (OUTPUT_FIELDS,
       export_rows
         (category_records Urllib.urljoin Urllib.urlparse_netloc Re.re_search
            Examples.goto_timeout Site.get_soup Site.args
            ("Cash & Cars", Site.cash_url))))],
   Raise (OtherException "404 Client Error")).
Proof. split; vm_compute; reflexivity. Qed.

(** ** The command line *)

Lemma has_char_lstrip (c d : ascii) (s : string) :
  has_char c s = false -> has_char c (Cli.lstrip d s) = false.
Proof.
  induction s as [|a s IH]; simpl; [done|].
  intros H. destruct (Ascii.eqb a d); [|done].
  apply orb_false_elim in H as [_ H]. by apply IH.
Qed.

Lemma has_char_lstrip_whitespace (c : ascii) (s : string) :
  has_char c s = false -> has_char c (Cli.lstrip_whitespace s) = false.
Proof.
  remember (String.length s) as n eqn:En. revert s En.
  induction n as [n IH] using lt_wf_ind. intros s -> H.
  destruct s as [|a s1]; [done|].
  simpl in H. apply orb_false_elim in H as [Ha H1].
  cbn [Cli.lstrip_whitespace]. destruct (Cli.is_whitespace a).
  { apply (IH (String.length s1)); simpl; [lia|done|done]. }
  destruct s1 as [|b s2]; [simpl; by rewrite Ha|].
  simpl in H1. apply orb_false_elim in H1 as [Hb H2].
  destruct (Cli.is_whitespace2 a b).
  { apply (IH (String.length s2)); simpl; [lia|done|done]. }
  destruct s2 as [|d s3]; [simpl; by rewrite Ha, Hb|].
  destruct (Cli.is_whitespace3 a b d).
  - simpl in H2. apply orb_false_elim in H2 as [_ H3].
    apply (IH (String.length s3)); simpl; [lia|done|done].
  - simpl. by rewrite Ha, Hb.
Qed.

Lemma has_char_rstrip_whitespace (c : ascii) (s : string) :
  has_char c s = false -> has_char c (Cli.rstrip_whitespace s) = false.
Proof.
  induction s as [|a s IH]; [done|].
  intros H. cbn [Cli.rstrip_whitespace].
  destruct (Cli.all_whitespace (String a s)); [done|].
  simpl in *. apply orb_false_elim in H as [-> Hs]. by apply IH.
Qed.

Lemma has_char_unquoted (c : ascii) (s : string) :
  has_char c s = false -> has_char c (unquoted s) = false.
Proof.
  intros H. unfold unquoted, Cli.strip_char, Cli.strip_whitespace.
  repeat first [apply has_char_rstrip | apply has_char_lstrip
               | apply has_char_rstrip_whitespace
               | apply has_char_lstrip_whitespace].
  done.
Qed.

Lemma after_app_stop (d : ascii) (s t : string) :
  has_char d s = false -> after d (s ++ String d t) = t.
Proof.
  induction s as [|a s IH]; simpl.
  - by rewrite Ascii.eqb_refl.
  - intros [-> Hs]%orb_false_elim. by apply IH.
Qed.

Lemma rstrip_snoc_same (c : ascii) (s : string) :
  rstrip c (s ++ String c "") = rstrip c s.
Proof.
  induction s as [|a s IH]; simpl.
  - by rewrite Ascii.eqb_refl.
  - by rewrite IH.
Qed.

(** *** White space and plain characters *)

Lemma is_plain_spec (a : ascii) :
  is_plain a = true ->
  (N_of_ascii a < 128)%N /\ Cli.is_whitespace a = false.
Proof.
  unfold is_plain. intros [H1 H2]%andb_true_iff.
  split; [by apply N.ltb_lt|by apply negb_true_iff].
Qed.

Lemma is_whitespace2_plain_l (a b : ascii) :
  is_plain a = true -> Cli.is_whitespace2 a b = false.
Proof.
  intros [H _]%is_plain_spec. unfold Cli.is_whitespace2. cbv zeta.
  assert ((N_of_ascii a =? 194)%N = false) as -> by (apply N.eqb_neq; lia).
  done.
Qed.

Lemma is_whitespace2_plain_r (a b : ascii) :
  is_plain b = true -> Cli.is_whitespace2 a b = false.
Proof.
  intros [H _]%is_plain_spec. unfold Cli.is_whitespace2. cbv zeta.
  assert ((N_of_ascii b =? 133)%N = false) as -> by (apply N.eqb_neq; lia).
  assert ((N_of_ascii b =? 160)%N = false) as -> by (apply N.eqb_neq; lia).
  by rewrite andb_false_r.
Qed.

Lemma is_whitespace3_plain_1 (a b c : ascii) :
  is_plain a = true -> Cli.is_whitespace3 a b c = false.
Proof.
  intros [H _]%is_plain_spec. unfold Cli.is_whitespace3. cbv zeta.
  assert ((N_of_ascii a =? 225)%N = false) as -> by (apply N.eqb_neq; lia).
  assert ((N_of_ascii a =? 226)%N = false) as -> by (apply N.eqb_neq; lia).
  assert ((N_of_ascii a =? 227)%N = false) as -> by (apply N.eqb_neq; lia).
  done.
Qed.

Lemma is_whitespace3_plain_2 (a b c : ascii) :
  is_plain b = true -> Cli.is_whitespace3 a b c = false.
Proof.
  intros [H _]%is_plain_spec. unfold Cli.is_whitespace3. cbv zeta.
  assert ((N_of_ascii b =? 154)%N = false) as -> by (apply N.eqb_neq; lia).
  assert ((N_of_ascii b =? 128)%N = false) as -> by (apply N.eqb_neq; lia).
  assert ((N_of_ascii b =? 129)%N = false) as -> by (apply N.eqb_neq; lia).
  by rewrite !andb_false_r.
Qed.

Lemma is_whitespace3_plain_3 (a b c : ascii) :
  is_plain c = true -> Cli.is_whitespace3 a b c = false.
Proof.
  intros [H _]%is_plain_spec. unfold Cli.is_whitespace3. cbv zeta.
  assert ((N_of_ascii c =? 128)%N = false) as -> by (apply N.eqb_neq; lia).
  assert ((128 <=? N_of_ascii c)%N = false) as -> by (apply N.leb_gt; lia).
  assert ((N_of_ascii c =? 168)%N = false) as -> by (apply N.eqb_neq; lia).
  assert ((N_of_ascii c =? 169)%N = false) as -> by (apply N.eqb_neq; lia).
  assert ((N_of_ascii c =? 175)%N = false) as -> by (apply N.eqb_neq; lia).
  assert ((N_of_ascii c =? 159)%N = false) as -> by (apply N.eqb_neq; lia).
  by rewrite !andb_false_r.
Qed.

(** White space does not start with a plain character. *)
Lemma lstrip_whitespace_plain_head (a : ascii) (r : string) :
  is_plain a = true ->
  Cli.lstrip_whitespace (String a r) = String a r.
Proof.
  intros H. destruct (is_plain_spec a H) as [_ Hws].
  destruct r as [|b [|c r]]; cbn [Cli.lstrip_whitespace];
    rewrite Hws, ?(is_whitespace2_plain_l a _ H), ?(is_whitespace3_plain_1 a _ _ H);
    done.
Qed.

(** A string that holds a plain character is not white space only. *)
Lemma all_whitespace_app_stop (c : ascii) (t u : string) :
  is_plain c = true -> Cli.all_whitespace (t ++ String c u) = false.
Proof.
  intros Hc. destruct (is_plain_spec c Hc) as [_ Hws].
  remember (String.length t) as n eqn:En. revert t En.
  induction n as [n IH] using lt_wf_ind. intros t ->.
  destruct t as [|a [|b [|d t3]]].
  - change ("" ++ String c u) with (String c u).
    destruct u as [|b [|d u]]; cbn [Cli.all_whitespace];
      rewrite Hws, ?(is_whitespace2_plain_l c _ Hc),
        ?(is_whitespace3_plain_1 c _ _ Hc); done.
  - change (String a "" ++ String c u) with (String a (String c u)).
    cbn [Cli.all_whitespace]. destruct (Cli.is_whitespace a).
    { apply (IH 0%nat ltac:(simpl; lia) ""). done. }
    rewrite (is_whitespace2_plain_r a c Hc).
    destruct u as [|d u]; [done|].
    by rewrite (is_whitespace3_plain_2 a c d Hc).
  - change (String a (String b "") ++ String c u)
      with (String a (String b (String c u))).
    cbn [Cli.all_whitespace]. destruct (Cli.is_whitespace a).
    { apply (IH 1%nat ltac:(simpl; lia) (String b "")). done. }
    destruct (Cli.is_whitespace2 a b).
    { apply (IH 0%nat ltac:(simpl; lia) ""). done. }
    by rewrite (is_whitespace3_plain_3 a b c Hc).
  - change (String a (String b (String d t3)) ++ String c u)
      with (String a (String b (String d (t3 ++ String c u)))).
    cbn [Cli.all_whitespace]. destruct (Cli.is_whitespace a).
    { apply (IH (String.length (String b (String d t3)))
               ltac:(simpl; lia) (String b (String d t3))). done. }
    destruct (Cli.is_whitespace2 a b).
    { apply (IH (String.length (String d t3)) ltac:(simpl; lia) (String d t3)).
      done. }
    destruct (Cli.is_whitespace3 a b d); [|done].
    apply (IH (String.length t3) ltac:(simpl; lia) t3). done.
Qed.

Lemma rstrip_whitespace_app_stop (c : ascii) (s u : string) :
  is_plain c = true -> Cli.rstrip_whitespace u = u ->
  Cli.rstrip_whitespace (s ++ String c u) = s ++ String c u.
Proof.
  intros Hc Hu. induction s as [|a s IH].
  - change ("" ++ String c u) with (String c u).
    cbn [Cli.rstrip_whitespace].
    assert (Cli.all_whitespace (String c u) = false) as ->
      by exact (all_whitespace_app_stop c "" u Hc).
    by rewrite Hu.
  - change (String a s ++ String c u) with (String a (s ++ String c u)).
    cbn [Cli.rstrip_whitespace].
    assert (Cli.all_whitespace (String a (s ++ String c u)) = false) as ->
      by exact (all_whitespace_app_stop c (String a s) u Hc).
    by rewrite IH.
Qed.

Lemma rstrip_whitespace_snoc (c : ascii) (s : string) :
  is_plain c = true ->
  Cli.rstrip_whitespace (s ++ String c "") = s ++ String c "".
Proof. intros Hc. by apply rstrip_whitespace_app_stop. Qed.

(** A character that lowers to [h] is [h] or [H]. *)
Lemma lower_char_h (a : ascii) :
  Urllib.lower_char a = "h"%char ->
  is_plain a = true /\
  Ascii.eqb a Cli.DQUOTE = false /\ Ascii.eqb a Cli.SQUOTE = false.
Proof.
  destruct a as [[] [] [] [] [] [] [] []]; vm_compute; intros H;
    first [discriminate H | done].
Qed.

Lemma http_prefix_head (url : string) :
  String.prefix "http" (Urllib.lower url) = true ->
  exists a rest,
    url = String a rest /\ is_plain a = true /\
    Ascii.eqb a Cli.DQUOTE = false /\ Ascii.eqb a Cli.SQUOTE = false.
Proof.
  destruct url as [|a rest]; [done|]. intros H.
  exists a, rest. split; [done|]. apply lower_char_h.
  change (String.prefix "http" (Urllib.lower (String a rest))) with
    (if ascii_dec "h" (Urllib.lower_char a)
     then String.prefix "ttp" (Urllib.lower rest) else false) in H.
  by destruct (ascii_dec "h" (Urllib.lower_char a)).
Qed.

(** X11: [parse_category_arg] splits at the first [=]: an argument
    without [=] is refused with the first message and one whose URL side
    does not start with [http], in any case, with the second; in an
    accepted pair the name holds no [=], the URL starts with [http] in any
    case, and the two are the cleaned sides of the first [=], so that the
    [=] of a query string stay in the URL. *)
Theorem parse_category_arg_spec (s : string) :
  match Cli.parse_category_arg s with
  | Ok (name, url) =>
      has_char "=" s = true /\
      name = unquoted (before "=" s) /\ url = unquoted (after "=" s) /\
      has_char "=" name = false /\
      String.prefix "http" (Urllib.lower url) = true
  | Raise e =>
      (has_char "=" s = false /\ e = Cli.MISSING_EQUALS) \/
      (has_char "=" s = true /\ e = Cli.NOT_HTTP /\
       String.prefix "http" (Urllib.lower (unquoted (after "=" s))) = false)
  end.
Proof.
  unfold Cli.parse_category_arg. rewrite contains_char.
  destruct (has_char "=" s) eqn:Hs; simpl; [|by left].
  fold (unquoted (before "=" s)). fold (unquoted (after "=" s)).
  destruct (String.prefix "http" (Urllib.lower (unquoted (after "=" s))))
    eqn:Hp; simpl.
  - repeat split; try done. apply has_char_unquoted, has_char_before_same.
  - right. by repeat split.
Qed.

(** X12: the round trip of the documented form: for a name without [=]
    that the cleaning leaves unchanged, and a URL that starts with [http]
    in any case and does not end in white space or a quote,
    [Name=URL] and [Name="URL"] both parse to the pair of name and URL,
    whatever [=] the URL holds. *)
Theorem parse_category_arg_round_trip (name url : string) :
  has_char "=" name = false ->
  unquoted name = name ->
  String.prefix "http" (Urllib.lower url) = true ->
  Cli.rstrip_whitespace url = url ->
  rstrip Cli.DQUOTE url = url ->
  rstrip Cli.SQUOTE url = url ->
  Cli.parse_category_arg (name ++ String "=" url) = Ok (name, url) /\
  Cli.parse_category_arg
    (name ++ String "=" (String Cli.DQUOTE (url ++ String Cli.DQUOTE "")))
    = Ok (name, url).
Proof.
  intros Hname Hclean Hhttp Hws Hdq Hsq.
  destruct (http_prefix_head url Hhttp) as (a & rest & Hurl & Ha & Hadq & Hasq).
  assert (unquoted url = url) as Hu.
  { unfold unquoted, Cli.strip_char, Cli.strip_whitespace.
    assert (Cli.lstrip_whitespace url = url) as ->.
    { rewrite Hurl. by apply lstrip_whitespace_plain_head. }
    rewrite Hws.
    assert (Cli.lstrip Cli.DQUOTE url = url) as ->.
    { rewrite Hurl. simpl. by rewrite Hadq. }
    rewrite Hdq.
    assert (Cli.lstrip Cli.SQUOTE url = url) as ->.
    { rewrite Hurl. simpl. by rewrite Hasq. }
    done. }
  assert (unquoted (String Cli.DQUOTE (url ++ String Cli.DQUOTE "")) = url) as Hq.
  { unfold unquoted, Cli.strip_char, Cli.strip_whitespace.
    assert (Cli.lstrip_whitespace (String Cli.DQUOTE (url ++ String Cli.DQUOTE ""))
            = String Cli.DQUOTE url ++ String Cli.DQUOTE "") as ->
      by (by apply lstrip_whitespace_plain_head).
    rewrite rstrip_whitespace_snoc by done.
    assert (Cli.lstrip Cli.DQUOTE (String Cli.DQUOTE url ++ String Cli.DQUOTE "")
            = url ++ String Cli.DQUOTE "") as ->.
    { rewrite Hurl. simpl. by rewrite Hadq. }
    rewrite rstrip_snoc_same, Hdq.
    assert (Cli.lstrip Cli.SQUOTE url = url) as ->.
    { rewrite Hurl. simpl. by rewrite Hasq. }
    done. }
  unfold Cli.parse_category_arg.
  rewrite !contains_char, !has_char_app. simpl. rewrite !orb_true_r. simpl.
  rewrite !before_app_stop, !after_app_stop, (before_absent _ _ Hname) by done.
  fold (unquoted name). fold (unquoted url).
  fold (unquoted (String Cli.DQUOTE (url ++ String Cli.DQUOTE ""))).
  rewrite Hclean, Hu, Hq, Hhttp. done.
Qed.

Lemma parse_category_arg_round_trip_witness :
  Cli.parse_category_arg
    ("Tech" ++ String "=" "https://www.clickcompetitions.co.uk/c/?page=2&sort=new")
    = Ok ("Tech", "https://www.clickcompetitions.co.uk/c/?page=2&sort=new") /\
  Cli.parse_category_arg
    ("Tech" ++ String "="
       (String Cli.DQUOTE
          ("https://www.clickcompetitions.co.uk/c/?page=2&sort=new"
             ++ String Cli.DQUOTE "")))
    = Ok ("Tech", "https://www.clickcompetitions.co.uk/c/?page=2&sort=new").
Proof.
  apply (parse_category_arg_round_trip "Tech"
           "https://www.clickcompetitions.co.uk/c/?page=2&sort=new");
    vm_compute; reflexivity.
Defined.

(** *** The name of the per-category file *)

Lemma safe_char_plain (a : ascii) :
  Cli.is_safe_char a = true -> is_plain a = true.
Proof.
  destruct a as [[] [] [] [] [] [] [] []]; vm_compute; intros H;
    first [discriminate H | done].
Qed.

Lemma sub_unsafe_all_safe (in_run : bool) (s : string) :
  all_chars Cli.is_safe_char (Cli.sub_unsafe in_run s) = true.
Proof.
  revert in_run. induction s as [|a s IH]; intros in_run; simpl; [done|].
  destruct (Cli.is_safe_char a) eqn:Ea; simpl.
  - by rewrite Ea, IH.
  - destruct in_run; simpl; by rewrite IH.
Qed.

Lemma sub_unsafe_safe_prefix (x t : string) :
  all_chars Cli.is_safe_char x = true ->
  Cli.sub_unsafe false (x ++ t) = x ++ Cli.sub_unsafe false t.
Proof.
  induction x as [|a x IH]; [done|].
  intros [Ha Hx]%andb_true_iff.
  change (Cli.sub_unsafe false (String a x ++ t)) with
    (if Cli.is_safe_char a then String a (Cli.sub_unsafe false (x ++ t))
     else String "_" (Cli.sub_unsafe true (x ++ t))).
  rewrite Ha, (IH Hx). done.
Qed.

Lemma sub_unsafe_safe_app (in_run : bool) (a : ascii) (x t : string) :
  all_chars Cli.is_safe_char (String a x) = true ->
  Cli.sub_unsafe in_run (String a x ++ t) = String a x ++ Cli.sub_unsafe false t.
Proof.
  intros [Ha Hx]%andb_true_iff.
  change (Cli.sub_unsafe in_run (String a x ++ t)) with
    (if Cli.is_safe_char a then String a (Cli.sub_unsafe false (x ++ t))
     else if in_run then Cli.sub_unsafe true (x ++ t)
     else String "_" (Cli.sub_unsafe true (x ++ t))).
  rewrite Ha, (sub_unsafe_safe_prefix x t Hx). done.
Qed.

Lemma sub_unsafe_safe (in_run : bool) (s : string) :
  all_chars Cli.is_safe_char s = true -> Cli.sub_unsafe in_run s = s.
Proof.
  revert in_run. induction s as [|a s IH]; intros in_run; simpl; [done|].
  intros [Ha Hs]%andb_true_iff. by rewrite Ha, (IH false Hs).
Qed.

Lemma sub_unsafe_run (u t : string) :
  all_chars (fun a => negb (Cli.is_safe_char a)) u = true ->
  Cli.sub_unsafe true (u ++ t) = Cli.sub_unsafe true t.
Proof.
  induction u as [|a u IH]; simpl; [done|].
  intros [Ha Hu]%andb_true_iff. apply negb_true_iff in Ha. rewrite Ha.
  by apply IH.
Qed.

Lemma rstrip_whitespace_safe (s : string) :
  all_chars Cli.is_safe_char s = true -> Cli.rstrip_whitespace s = s.
Proof.
  induction s as [|a s IH]; [done|].
  intros [Ha Hs]%andb_true_iff.
  apply (rstrip_whitespace_app_stop a "" s); [by apply safe_char_plain|auto].
Qed.

Lemma rstrip_whitespace_app_safe (s : string) (a : ascii) (y : string) :
  all_chars Cli.is_safe_char (String a y) = true ->
  Cli.rstrip_whitespace (s ++ String a y) = s ++ String a y.
Proof.
  intros [Ha Hy]%andb_true_iff.
  apply rstrip_whitespace_app_stop; [by apply safe_char_plain|].
  by apply rstrip_whitespace_safe.
Qed.

Lemma strip_whitespace_safe (s : string) :
  all_chars Cli.is_safe_char s = true -> Cli.strip_whitespace s = s.
Proof.
  intros H. unfold Cli.strip_whitespace.
  assert (Cli.lstrip_whitespace s = s) as ->.
  { destruct s as [|a s]; [done|].
    apply andb_true_iff in H as [Ha _].
    by apply lstrip_whitespace_plain_head, safe_char_plain. }
  by apply rstrip_whitespace_safe.
Qed.

Lemma has_char_all_chars (p : ascii -> bool) (c : ascii) (s : string) :
  p c = false -> all_chars p s = true -> has_char c s = false.
Proof.
  intros Hc. induction s as [|a s IH]; simpl; [done|].
  intros [Ha Hs]%andb_true_iff. rewrite (IH Hs), orb_false_r.
  destruct (Ascii.eqb_spec a c) as [->|]; [congruence|done].
Qed.

Lemma string_app_assoc (s t u : string) : (s ++ t) ++ u = s ++ t ++ u.
Proof.
  induction s as [|a s IH]; [done|].
  change (String a ((s ++ t) ++ u) = String a (s ++ t ++ u)). by rewrite IH.
Qed.

(** X13: the stem of the per-category file holds only letters, digits,
    [_] and [-], so neither a path separator nor a dot nor white space;
    a name made of such characters is its own stem, and the stem of a
    stem is the stem. *)
Theorem safe_name_spec (cat_name : string) :
  all_chars Cli.is_safe_char (Cli.safe_name cat_name) = true /\
  has_char "/" (Cli.safe_name cat_name) = false /\
  has_char "092" (Cli.safe_name cat_name) = false /\
  has_char "." (Cli.safe_name cat_name) = false /\
  (all_chars Cli.is_safe_char cat_name = true ->
   Cli.safe_name cat_name = cat_name) /\
  Cli.safe_name (Cli.safe_name cat_name) = Cli.safe_name cat_name.
Proof.
  assert (forall s, all_chars Cli.is_safe_char s = true -> Cli.safe_name s = s)
    as Hid.
  { intros s Hs. unfold Cli.safe_name.
    by rewrite strip_whitespace_safe, sub_unsafe_safe. }
  pose proof (sub_unsafe_all_safe false (Cli.strip_whitespace cat_name)) as H.
  fold (Cli.safe_name cat_name) in H.
  split; [done|].
  split; [by apply (has_char_all_chars Cli.is_safe_char)|].
  split; [by apply (has_char_all_chars Cli.is_safe_char)|].
  split; [by apply (has_char_all_chars Cli.is_safe_char)|].
  split; [apply Hid|by apply Hid].
Qed.

(** X14: between two stretches of letters, digits, [_] and [-], a run of
    other characters, however long and whatever it holds, becomes one
    underscore: category names that differ only in such runs get the same
    per-category file. *)
Theorem safe_name_collapses_runs (a b c : ascii) (x u y : string) :
  all_chars Cli.is_safe_char (String a x) = true ->
  all_chars (fun a => negb (Cli.is_safe_char a)) (String b u) = true ->
  all_chars Cli.is_safe_char (String c y) = true ->
  Cli.safe_name (String a x ++ String b u ++ String c y) =
  String a x ++ String "_" (String c y).
Proof.
  intros Hx Hu Hy. unfold Cli.safe_name, Cli.strip_whitespace.
  assert (Cli.lstrip_whitespace (String a x ++ String b u ++ String c y)
          = String a x ++ String b u ++ String c y) as ->.
  { apply andb_true_iff in Hx as [Ha _].
    by apply (lstrip_whitespace_plain_head a), safe_char_plain. }
  rewrite <- string_app_assoc, rstrip_whitespace_app_safe by done.
  rewrite string_app_assoc, sub_unsafe_safe_app by done.
  f_equal.
  change (Cli.sub_unsafe false (String b u ++ String c y)) with
    (if Cli.is_safe_char b
     then String b (Cli.sub_unsafe false (u ++ String c y))
     else String "_" (Cli.sub_unsafe true (u ++ String c y))).
  simpl in Hu. apply andb_true_iff in Hu as [Hb Hu].
  apply negb_true_iff in Hb. rewrite Hb. f_equal.
  rewrite sub_unsafe_run by done.
  by apply sub_unsafe_safe.
Qed.

Lemma safe_name_collapses_runs_witness :
  Cli.safe_name "Cash & Cars" = "Cash_Cars" /\
  Cli.safe_name "Cash/Cars" = "Cash_Cars".
Proof.
  split.
  - apply (safe_name_collapses_runs "C" " " "C" "ash" "& " "ars");
      vm_compute; reflexivity.
  - apply (safe_name_collapses_runs "C" "/" "C" "ash" "" "ars");
      vm_compute; reflexivity.
Defined.

(** ** The links, the export and the ranking *)

(** X15: every link the extractor returns is in canonical form, so that
    canonicalizing it again changes nothing, and the list returned depends
    on the hrefs of the page as a set only: neither the order of the
    anchors nor a repeated anchor changes it. *)
Theorem returned_links_canonical
    (urljoin : string -> string -> result string)
    (netloc : string -> result string)
    (category_url : string) (soup : BeautifulSoup) (links : list string) :
  extract_competition_links_from_category urljoin netloc category_url soup
    = Ok links ->
  (forall u, u ∈ links -> canonical_link u = u) /\
  (forall soup' links',
     extract_competition_links_from_category urljoin netloc category_url soup'
       = Ok links' ->
     (forall href, href ∈ select_a_href soup' <-> href ∈ select_a_href soup) ->
     links' = links).
Proof.
  intros H.
  apply extract_links_characterised in H as (Hnodup & Hsorted & host & Hhost & Hchar).
  split.
  - intros u Hu. apply Hchar in Hu as (href & full & _ & _ & ->).
    apply canonical_link_idempotent.
  - intros soup' links' H' Hsame.
    apply extract_links_characterised in H'
      as (Hnodup' & Hsorted' & host' & Hhost' & Hchar').
    assert (host' = host) as -> by congruence.
    apply (StronglySorted_unique String.le); [done..|].
    apply NoDup_Permutation; [done..|].
    intros u. rewrite Hchar, Hchar'.
    split; intros (href & full & Hin & Hkept & ->); exists href, full;
      (split; [by apply Hsame|done]).
Qed.

Lemma returned_links_canonical_witness :
  (forall u,
     u ∈ ["https://www.clickcompetitions.co.uk/competition/a/";
          "https://www.clickcompetitions.co.uk/competition/boat/";
          "https://www.clickcompetitions.co.uk/competition/missing/"] ->
     canonical_link u = u) /\
  (forall soup' links',
     extract_competition_links_from_category Urllib.urljoin
       Urllib.urlparse_netloc Site.cash_url soup' = Ok links' ->
     (forall href,
        href ∈ select_a_href soup' <-> href ∈ select_a_href Site.cash_page) ->
     links' = ["https://www.clickcompetitions.co.uk/competition/a/";
               "https://www.clickcompetitions.co.uk/competition/boat/";
               "https://www.clickcompetitions.co.uk/competition/missing/"]).
Proof.
  apply (returned_links_canonical Urllib.urljoin Urllib.urlparse_netloc
           Site.cash_url Site.cash_page).
  vm_compute. reflexivity.
Defined.







(** *** Ties keep the input order *)

Section StableSort.

Context {K A : Type}.
Variable ltb : K -> K -> bool.
Variable P : K * A -> bool.



End StableSort.



